(** * RCL-like wrapper for Fast DDS: the handle boundary, the executor,
      the rate limiter and the subscription dispatch path

    Sources embedded here:
    - [libraries/src/rcl_like_wrapper.cpp] (namespace [rcl_like_wrapper]):
      the free functions taking [intptr_t] handles, [Executor], [Rate] and
      [rcl_like_wrapper_init];
    - [lwrcl/libraries/src/lwrcl/include/subscriber.hpp] (namespace [lwrcl]):
      [SubscriptionCallback], [SubscriberListener] and the constructor of
      [Subscriber].

    [Node], [Publisher] and [Channel] (node.hpp, publisher.hpp,
    channel.hpp) are not embedded.  What the embedded code calls in them
    is kept as a collaborator whose answers are arbitrary; the queue of
    pending closures follows the specification. *)

From Stdlib Require Import ZArith Lia.
From stdpp Require Import gmap strings list.

Local Open Scope Z_scope.

(** ** Outcomes of a C++ call *)

(** What a [catch] clause can tell apart: something derived from
    [std::exception] (with its [what()]) or anything else. *)
Inductive exn : Type :=
| std_exception (what : string)
| unknown_exception.

(** A call returns, leaves by an exception, or has no defined behaviour
    (a member call through a null pointer). *)
Inductive outcome (A : Type) : Type :=
| Returns (a : A)
| Throws (e : exn)
| Undefined.

Arguments Returns {A} a.
Arguments Throws {A} e.
Arguments Undefined {A}.

(** * The handle boundary: rcl_like_wrapper.cpp *)

Module Boundary.

(** [MessageType] wraps a [TypeSupport], itself a shared pointer to a
    [TopicDataType]; the address is all the boundary ever copies. *)
Record MessageType : Type := { type_support : Z }.

(** [MessageTypes] maps names to [MessageType]. *)
Abbreviation MessageTypes := (gmap string MessageType).

(** The boundary only forwards these: the [dds::TopicQos] passed by
    reference, the [void*] message, the [std::function] objects.  Each is
    represented by the identity of the object passed. *)
Definition TopicQos : Type := Z.
Definition Message : Type := Z.
Definition Callback : Type := Z.

(** Every way the boundary reaches into code that is not in this file:
    the [new Node(...)] expression and the member calls on [Node],
    [Publisher] and [Subscriber].  The first argument of a member call is
    the object address. *)
Inductive call : Type :=
| New_Node (domain_id : Z)
| Node_destroy (node : Z)
| Node_spin (node : Z)
| Node_spin_once (node : Z)
| Node_spin_some (node : Z)
| Node_stop_spin (node : Z)
| Node_create_publisher (node : Z) (message_type : MessageType) (topic : string) (qos : TopicQos)
| Node_create_subscription (node : Z) (message_type : MessageType) (topic : string) (qos : TopicQos) (callback : Callback)
| Node_create_timer (node : Z) (period : Z) (callback : Callback)
| Publisher_publish (publisher : Z) (message : Message)
| Publisher_get_subscriber_count (publisher : Z)
| Subscriber_get_publisher_count (subscriber : Z).

Global Instance MessageType_eq_dec : EqDecision MessageType.
Proof. solve_decision. Defined.

Global Instance call_eq_dec : EqDecision call.
Proof. solve_decision. Defined.

(** The collaborator: the state [T] behind the boundary (Fast DDS, the
    [Node] objects) and its answers.  A non-placement [new] either throws
    or yields the address of an object, which is never null: the address
    is a [positive].  Member functions that return a pointer may return
    null ([0]); member functions returning [void] answer [0]. *)
Class Collaborator (T : Type) : Type := {
  new_Node : Z -> T -> outcome positive * T;
  method : call -> T -> outcome Z * T
}.

Section Wrapper.
Context {T : Type} `{!Collaborator T}.

(** Global state of the translation unit plus what it can observe or
    change outside: the lines its own functions have written to
    [std::cerr], [message_types], [global_stop_flag], the calls made so far
    across the boundary, and the collaborator (whose own output, if any,
    is part of its state). *)
Record world : Type := World {
  cerr : list string;
  message_types : MessageTypes;
  global_stop_flag : bool;
  calls : list call;
  dds : T
}.

Definition set_cerr (f : list string -> list string) (w : world) : world :=
  World (f (cerr w)) (message_types w) (global_stop_flag w) (calls w) (dds w).

Definition set_message_types (f : MessageTypes -> MessageTypes) (w : world) : world :=
  World (cerr w) (f (message_types w)) (global_stop_flag w) (calls w) (dds w).

Definition set_calls (f : list call -> list call) (w : world) : world :=
  World (cerr w) (message_types w) (global_stop_flag w) (f (calls w)) (dds w).

Definition set_dds (d : T) (w : world) : world :=
  World (cerr w) (message_types w) (global_stop_flag w) (calls w) d.

(** Computations over the world that may throw or be undefined. *)
Definition M (A : Type) : Type := world -> outcome A * world.

Definition ret {A} (a : A) : M A := fun w => (Returns a, w).

Definition bind {A B} (m : M A) (k : A -> M B) : M B :=
  fun w =>
    match m w with
    | (Returns a, w') => k a w'
    | (Throws e, w') => (Throws e, w')
    | (Undefined, w') => (Undefined, w')
    end.

Notation "x <- m ;; k" := (bind m (fun x => k))
  (at level 100, m at next level, right associativity).
Notation "m ;;; k" := (bind m (fun _ => k))
  (at level 100, right associativity).

(** [std::cerr << line << std::endl] *)
Definition cerr_endl (line : string) : M unit :=
  fun w => (Returns tt, set_cerr (fun l => l ++ [line]) w).

(** The world after an operation has refused its handle with [line]. *)
Definition refused (line : string) (w : world) : world :=
  set_cerr (fun l => l ++ [line]) w.

(** [object->member(...)]: undefined through a null pointer, otherwise
    the collaborator answers and the call is recorded. *)
Definition member_call (object : Z) (c : call) : M Z :=
  fun w =>
    if object =? 0 then (Undefined, w)
    else
      let (r, d) := method c (dds w) in
      (r, set_dds d (set_calls (fun l => l ++ [c]) w)).

(** [new Node(domain_id)] *)
Definition new_Node_expression (domain_id : Z) : M Z :=
  fun w =>
    let (r, d) := new_Node domain_id (dds w) in
    let w' := set_dds d (set_calls (fun l => l ++ [New_Node domain_id]) w) in
    match r with
    | Returns a => (Returns (Z.pos a), w')
    | Throws e => (Throws e, w')
    | Undefined => (Undefined, w')
    end.

(** [intptr_t create_node(uint16_t domain_id)]; [domain_id] is only
    handed on to the constructor. *)
Definition create_node (domain_id : Z) : M Z :=
  node <- new_Node_expression domain_id ;;
  if node =? 0 then ret 0 else ret node.

(** [void destroy_node(intptr_t node_ptr)]: no test of [node_ptr]. *)
Definition destroy_node (node_ptr : Z) : M unit :=
  member_call node_ptr (Node_destroy node_ptr) ;;; ret tt.

(** [void spin(intptr_t node_ptr)] *)
Definition spin (node_ptr : Z) : M unit :=
  if node_ptr =? 0 then cerr_endl "node pointer is invalid!" ;;; ret tt
  else member_call node_ptr (Node_spin node_ptr) ;;; ret tt.

(** [void spin_once(intptr_t node_ptr)] *)
Definition spin_once (node_ptr : Z) : M unit :=
  if node_ptr =? 0 then cerr_endl "node pointer is invalid!" ;;; ret tt
  else member_call node_ptr (Node_spin_once node_ptr) ;;; ret tt.

(** [void spin_some(intptr_t node_ptr)] *)
Definition spin_some (node_ptr : Z) : M unit :=
  if node_ptr =? 0 then cerr_endl "node pointer is invalid!" ;;; ret tt
  else member_call node_ptr (Node_spin_some node_ptr) ;;; ret tt.

(** [void stop_spin(intptr_t node_ptr)] *)
Definition stop_spin (node_ptr : Z) : M unit :=
  if node_ptr =? 0 then cerr_endl "node pointer is invalid!" ;;; ret tt
  else member_call node_ptr (Node_stop_spin node_ptr) ;;; ret tt.

(** [std::string("rt/") + topic] *)
Definition rt_topic (topic : string) : string := String.app "rt/" topic.

(** [intptr_t create_publisher(node_ptr, message_type_name, topic, qos)] *)
Definition create_publisher (node_ptr : Z) (message_type_name topic : string) (qos : TopicQos) : M Z :=
  if node_ptr =? 0 then cerr_endl "node pointer is invalid!" ;;; ret 0
  else
    fun w =>
      match message_types w !! message_type_name with
      | None => ret 0 w
      | Some message_type =>
          (publisher <- member_call node_ptr
             (Node_create_publisher node_ptr message_type (rt_topic topic) qos) ;;
           if publisher =? 0 then ret 0 else ret publisher) w
      end.

(** [void publish(intptr_t publisher_ptr, void *message)] *)
Definition publish (publisher_ptr : Z) (message : Message) : M unit :=
  if publisher_ptr =? 0 then cerr_endl "publisher pointer is invalid!" ;;; ret tt
  else member_call publisher_ptr (Publisher_publish publisher_ptr message) ;;; ret tt.

(** [int32_t get_subscriber_count(intptr_t publisher_ptr)] *)
Definition get_subscriber_count (publisher_ptr : Z) : M Z :=
  if publisher_ptr =? 0 then cerr_endl "publisher pointer is invalid!" ;;; ret 0
  else member_call publisher_ptr (Publisher_get_subscriber_count publisher_ptr).

(** [intptr_t create_subscription(node_ptr, message_type_name, topic, qos, callback)] *)
Definition create_subscription (node_ptr : Z) (message_type_name topic : string) (qos : TopicQos) (callback : Callback) : M Z :=
  if node_ptr =? 0 then cerr_endl "node pointer is invalid!" ;;; ret 0
  else
    fun w =>
      match message_types w !! message_type_name with
      | None => ret 0 w
      | Some message_type =>
          (subscriber <- member_call node_ptr
             (Node_create_subscription node_ptr message_type (rt_topic topic) qos callback) ;;
           if subscriber =? 0 then ret 0 else ret subscriber) w
      end.

(** [int32_t get_publisher_count(intptr_t subscriber_ptr)] *)
Definition get_publisher_count (subscriber_ptr : Z) : M Z :=
  if subscriber_ptr =? 0 then cerr_endl "subscriber pointer is invalid!" ;;; ret 0
  else member_call subscriber_ptr (Subscriber_get_publisher_count subscriber_ptr).

(** [intptr_t create_timer(node_ptr, period, callback)] *)
Definition create_timer (node_ptr : Z) (period : Z) (callback : Callback) : M Z :=
  if node_ptr =? 0 then cerr_endl "node pointer is invalid!" ;;; ret 0
  else
    timer <- member_call node_ptr (Node_create_timer node_ptr period callback) ;;
    if timer =? 0 then ret 0 else ret timer.

(** The body of the loop of [rcl_like_wrapper_init]:
    [if (message_types.find(type.first) == message_types.end())
       message_types[type.first] = type.second;] *)
Definition register_type (registry : MessageTypes) (type : string * MessageType) : MessageTypes :=
  match registry !! type.1 with
  | None => <[type.1 := type.2]> registry
  | Some _ => registry
  end.

(** [void rcl_like_wrapper_init(const MessageTypes &types)]: one pass over
    the entries of [types]. *)
Definition rcl_like_wrapper_init (types : MessageTypes) : M unit :=
  fun w =>
    (Returns tt,
     set_message_types (fun registry => foldl register_type registry (map_to_list types)) w).

(** ** Executor

    Every member function below except [spin] holds [mutex_] through a
    [std::lock_guard] for its whole body, and [spin] holds it for one pass
    of its [for] loop: each is one indivisible step on the executor. *)

Record Executor : Type := { running_ : bool; nodes_ : list Z }.

(** [Executor::Executor() : running_(false)] *)
Definition Executor_new : Executor := {| running_ := false; nodes_ := [] |}.

(** [void Executor::add_node(intptr_t node_ptr)] *)
Definition Executor_add_node (node_ptr : Z) (e : Executor) (w : world) : outcome unit * (Executor * world) :=
  if negb (node_ptr =? 0) then
    (Returns tt, ({| running_ := running_ e; nodes_ := nodes_ e ++ [node_ptr] |}, w))
  else
    (Returns tt, (e, set_cerr (fun l => l ++ ["Error: Node pointer is null, cannot add to executor."]) w)).

(** [void Executor::remove_node(intptr_t node_ptr)]:
    [nodes_.erase(std::remove(nodes_.begin(), nodes_.end(), node_ptr), nodes_.end())]
    keeps, in order, the elements that differ from [node_ptr]. *)
Definition Executor_remove_node (node_ptr : Z) (e : Executor) (w : world) : outcome unit * (Executor * world) :=
  (Returns tt,
   ({| running_ := running_ e;
       nodes_ := List.filter (fun p => negb (p =? node_ptr)) (nodes_ e) |}, w)).

(** The [for] loop of [Executor::stop]. *)
Fixpoint stop_each (nodes : list Z) : M unit :=
  match nodes with
  | [] => ret tt
  | node_ptr :: rest =>
      (if node_ptr =? 0 then cerr_endl "node pointer is invalid!"
       else stop_spin node_ptr) ;;;
      stop_each rest
  end.

(** [void Executor::stop()] *)
Definition Executor_stop (e : Executor) (w : world) : outcome unit * (Executor * world) :=
  if running_ e then
    let (r, w') := stop_each (nodes_ e) w in
    (r, ({| running_ := false; nodes_ := nodes_ e |}, w'))
  else (Returns tt, (e, w)).

(** The [for] loop of [Executor::spin]. *)
Fixpoint spin_each (nodes : list Z) : M unit :=
  match nodes with
  | [] => ret tt
  | node_ptr :: rest =>
      (if node_ptr =? 0 then cerr_endl "node pointer is invalid!"
       else spin_some node_ptr) ;;;
      spin_each rest
  end.

(** One evaluation of the loop condition of [Executor::spin] and, when it
    holds, one pass of the loop body. *)
Definition Executor_spin_cycle (e : Executor) (w : world) : outcome unit * (Executor * world) :=
  if running_ e && negb (global_stop_flag w) then
    let (r, w') := spin_each (nodes_ e) w in (r, (e, w'))
  else (Returns tt, (e, w)).

(** [void Executor::spin()], alone on the executor: [None] when the loop is
    still running after [fuel] passes. *)
Fixpoint spin_while (fuel : nat) (e : Executor) (w : world) : option (outcome unit * (Executor * world)) :=
  if running_ e && negb (global_stop_flag w) then
    match fuel with
    | O => None
    | S fuel' =>
        match spin_each (nodes_ e) w with
        | (Returns _, w') => spin_while fuel' e w'
        | (r, w') => Some (r, (e, w'))
        end
    end
  else Some (Returns tt, (e, w)).

Definition Executor_spin (fuel : nat) (e : Executor) (w : world) : option (outcome unit * (Executor * world)) :=
  spin_while fuel {| running_ := true; nodes_ := nodes_ e |} w.

(** What the threads sharing an executor do to it, one indivisible step
    at a time: the thread in [spin] enters the function ([running_ = true])
    and then repeats cycles; other threads add, remove and stop. *)
Inductive action : Type :=
| Enter_spin
| Spin_cycle
| Add_node (node_ptr : Z)
| Remove_node (node_ptr : Z)
| Stop.

Definition perform (a : action) (e : Executor) (w : world) : outcome unit * (Executor * world) :=
  match a with
  | Enter_spin => (Returns tt, ({| running_ := true; nodes_ := nodes_ e |}, w))
  | Spin_cycle => Executor_spin_cycle e w
  | Add_node p => Executor_add_node p e w
  | Remove_node p => Executor_remove_node p e w
  | Stop => Executor_stop e w
  end.

(** A schedule runs until an action does not return. *)
Fixpoint run (schedule : list action) (e : Executor) (w : world) : outcome unit * (Executor * world) :=
  match schedule with
  | [] => (Returns tt, (e, w))
  | a :: rest =>
      match perform a e w with
      | (Returns _, (e', w')) => run rest e' w'
      | other => other
      end
  end.

(** The entries of the node list that are not null. *)
Definition nonzero (nodes : list Z) : list Z :=
  List.filter (fun q => negb (q =? 0)) nodes.

Definition adds (node_ptr : Z) (a : action) : bool :=
  match a with Add_node p => p =? node_ptr | _ => false end.

End Wrapper.

Arguments world T : clear implicits.
Arguments M T A : clear implicits.

End Boundary.

(** * Rate: rcl_like_wrapper.cpp *)

(** [std::chrono::steady_clock] counts nanoseconds in a signed 64-bit
    integer; a [std::chrono::milliseconds] added to one of its time points
    is converted first, by a multiplication in the same 64 bits.  A result
    that leaves the range is written out as its two's-complement wrap
    (C++ leaves it undefined). *)
Definition ticks_per_millisecond : Z := 1000000.

Definition int64_min : Z := -9223372036854775808.
Definition int64_max : Z := 9223372036854775807.

Definition representable (z : Z) : Prop := int64_min <= z <= int64_max.

Definition wrap64 (z : Z) : Z :=
  (z + 9223372036854775808) mod 18446744073709551616 - 9223372036854775808.

Record Rate : Type := { period_ : Z; next_time_ : Z }.

(** [period_] as a duration of the clock. *)
Definition period_ticks (r : Rate) : Z := wrap64 (period_ r * ticks_per_millisecond).

(** [Rate::Rate(std::chrono::milliseconds period)], [now] being what
    [steady_clock::now()] answers. *)
Definition Rate_new (now period : Z) : Rate :=
  {| period_ := period;
     next_time_ := wrap64 (now + wrap64 (period * ticks_per_millisecond)) |}.

(** [next_time_ += period_] *)
Definition advance (r : Rate) : Rate :=
  {| period_ := period_ r; next_time_ := wrap64 (next_time_ r + period_ticks r) |}.

(** [while (now >= next_time_) next_time_ += period_;]
    [None]: the loop is still running after [fuel] passes. *)
Fixpoint catch_up (fuel : nat) (now : Z) (r : Rate) : option Rate :=
  if now >=? next_time_ r then
    match fuel with
    | O => None
    | S fuel' => catch_up fuel' now (advance r)
    end
  else Some r.

(** [void Rate::sleep()], [now] being what [steady_clock::now()] answers:
    the object afterwards and the instant handed to
    [std::this_thread::sleep_until]. *)
Definition Rate_sleep (fuel : nat) (now : Z) (r : Rate) : option (Rate * Z) :=
  if now <? next_time_ r then Some (r, next_time_ r)
  else
    match catch_up fuel now r with
    | Some r' => Some (r', next_time_ r')
    | None => None
    end.

(** The objects a [Rate] constructed at [t0] with period [P] can become
    through calls of [sleep] that return, the clock saying anything that,
    like the reading plus one period, is within its range. *)
Inductive Rate_reachable (t0 P : Z) : Rate -> Prop :=
| reach_new : Rate_reachable t0 P (Rate_new t0 P)
| reach_sleep r fuel now r' t :
    Rate_reachable t0 P r ->
    representable now ->
    representable (now + P * ticks_per_millisecond) ->
    Rate_sleep fuel now r = Some (r', t) ->
    Rate_reachable t0 P r'.

(** * Subscriptions: lwrcl/subscriber.hpp *)

Module Lwrcl.

(** How a call of the user's callback, a [std::function] taking a
    pointer to the message, ends. *)
Inductive completion : Type :=
| Done
| Raised (e : exn).

(** [ReturnCode_t]: only [RETCODE_OK] is told apart from the rest. *)
Definition RETCODE_OK : Z := 0.

(** What [reader->take_next_sample(&temp_instance, &sample_info_)] answers:
    the return code, [sample_info_.valid_data] and the sample written to
    [temp_instance]. *)
Record taken (T : Type) : Type := Taken {
  retcode : Z;
  valid_data : bool;
  instance : T
}.

Arguments Taken {T} retcode valid_data instance.
Arguments retcode {T} t.
Arguments valid_data {T} t.
Arguments instance {T} t.

(** The queue holds [ChannelCallback *]; the only one a listener ever
    produces is [subscription_callback_.get()]. *)
Inductive ChannelCallback : Type :=
| subscription_callback_.

Section Subscription.
Context {T U : Type}.

(** The user callback works on the message and on the user's own state
    [U], which it may have changed even when it leaves by an exception. *)
Definition callback : Type := T -> U -> completion * U.

Variable callback_function_ : callback.

(** A [SubscriberListener<T>] with the channel it refers to, [std::cerr],
    the user's state, and the messages [callback_function_] has been
    called with, oldest first. *)
Record state : Type := State {
  cerr : list string;
  message_ptr_buffer_ : list T;
  count : Z;
  channel_ : list ChannelCallback;
  user : U;
  invocations : list T
}.

Definition L (A : Type) : Type := state -> outcome A * state.

Definition ret {A} (a : A) : L A := fun s => (Returns a, s).

Definition bind {A B} (m : L A) (k : A -> L B) : L B :=
  fun s =>
    match m s with
    | (Returns a, s') => k a s'
    | (Throws e, s') => (Throws e, s')
    | (Undefined, s') => (Undefined, s')
    end.

(** [try { body } catch (const std::exception &e) { ... } catch (...) { ... }] *)
Definition try_catch {A} (body : L A) (handler : exn -> L A) : L A :=
  fun s =>
    match body s with
    | (Throws e, s') => handler e s'
    | other => other
    end.

Notation "x <- m ;; k" := (bind m (fun x => k))
  (at level 100, m at next level, right associativity).
Notation "m ;;; k" := (bind m (fun _ => k))
  (at level 100, right associativity).

Definition cerr_endl (line : string) : L unit :=
  fun s =>
    (Returns tt,
     State (cerr s ++ [line]) (message_ptr_buffer_ s) (count s) (channel_ s) (user s) (invocations s)).

(** [callback_function_(message)] *)
Definition call_callback_function_ (message : T) : L unit :=
  fun s =>
    let (c, u) := callback_function_ message (user s) in
    let s' := State (cerr s) (message_ptr_buffer_ s) (count s) (channel_ s) u
                    (invocations s ++ [message]) in
    match c with
    | Done => (Returns tt, s')
    | Raised e => (Throws e, s')
    end.

(** [message_buffer_->erase(message_buffer_->begin())] *)
Definition erase_begin : L unit :=
  fun s =>
    (Returns tt,
     State (cerr s) (tail (message_ptr_buffer_ s)) (count s) (channel_ s) (user s) (invocations s)).

(** [void SubscriptionCallback<T>::invoke()] *)
Definition invoke : L unit :=
  try_catch
    (fun s =>
       match message_ptr_buffer_ s with
       | front :: _ => (call_callback_function_ front ;;; erase_begin) s
       | [] => cerr_endl "Error: Vector is empty" s
       end)
    (fun e =>
       match e with
       | std_exception what =>
           cerr_endl (String.app "Exception during callback invocation: " what)
       | unknown_exception =>
           cerr_endl "Unknown exception during callback invocation."
       end).

(** The line either handler of [invoke] writes for [e]. *)
Definition caught_line (e : exn) : string :=
  match e with
  | std_exception what => String.app "Exception during callback invocation: " what
  | unknown_exception => "Unknown exception during callback invocation."
  end.

(** [message_ptr_buffer_.emplace_back(data_ptr)] *)
Definition emplace_back (data : T) : L unit :=
  fun s =>
    (Returns tt,
     State (cerr s) (message_ptr_buffer_ s ++ [data]) (count s) (channel_ s) (user s) (invocations s)).

(** Modelled from the spec: [Channel::produce] of channel.hpp, which is
    not among the sources: [push(closure)] appends to the FIFO of pending
    closures. *)
Definition produce (c : ChannelCallback) : L unit :=
  fun s =>
    (Returns tt,
     State (cerr s) (message_ptr_buffer_ s) (count s) (channel_ s ++ [c]) (user s) (invocations s)).

(** [void SubscriberListener<T>::on_data_available(dds::DataReader *reader)],
    [answer] being what [take_next_sample] gives. *)
Definition on_data_available (answer : taken T) : L unit :=
  if (retcode answer =? RETCODE_OK) && valid_data answer then
    emplace_back (instance answer) ;;;
    produce subscription_callback_
  else ret tt.

(** [void SubscriberListener<T>::on_subscription_matched(reader, status)] *)
Definition on_subscription_matched (current_count : Z) : L unit :=
  fun s =>
    (Returns tt,
     State (cerr s) (message_ptr_buffer_ s) current_count (channel_ s) (user s) (invocations s)).

(** [int32_t Subscriber<T>::get_publisher_count()] *)
Definition get_publisher_count : L Z := fun s => (Returns (count s), s).

(** Taking the closure at the head of the queue out of it. *)
Definition pop_front : L unit :=
  fun s =>
    (Returns tt,
     State (cerr s) (message_ptr_buffer_ s) (count s) (tail (channel_ s)) (user s) (invocations s)).

(** [closure->invoke()] through the [ChannelCallback] interface. *)
Definition run_closure (c : ChannelCallback) : L unit :=
  match c with subscription_callback_ => invoke end.

(** Modelled from the spec: the consuming side of the queue (channel.hpp
    and node.hpp are not among the sources).  [drain_available] removes and
    invokes, in FIFO order, every closure present at the moment of the
    call and returns the count invoked.  No handler is put around the
    closure here: whatever leaves [invoke] would leave the drain. *)
Fixpoint drain (pending : list ChannelCallback) : L nat :=
  match pending with
  | [] => ret O
  | c :: rest =>
      pop_front ;;;
      run_closure c ;;;
      n <- drain rest ;;
      ret (S n)
  end.

Definition drain_available : L nat := fun s => drain (channel_ s) s.

(** Modelled from the spec: [spin_once] consumes exactly one pending
    closure if any, otherwise returns immediately. *)
Definition consume_one : L unit :=
  fun s =>
    match channel_ s with
    | [] => ret tt s
    | c :: _ => (pop_front ;;; run_closure c) s
    end.

(** What happens to a subscription: the transport announces data, or the
    thread spinning the node takes one closure or all of them. *)
Inductive event : Type :=
| Data_available (answer : taken T)
| Spin_once
| Spin_some.

Definition step (ev : event) : L unit :=
  match ev with
  | Data_available answer => on_data_available answer
  | Spin_once => consume_one
  | Spin_some => drain_available ;;; ret tt
  end.

Fixpoint run (history : list event) : L unit :=
  match history with
  | [] => ret tt
  | ev :: rest => step ev ;;; run rest
  end.

(** The messages the transport delivered, in arrival order. *)
Fixpoint delivered (history : list event) : list T :=
  match history with
  | [] => []
  | Data_available answer :: rest =>
      if (retcode answer =? RETCODE_OK) && valid_data answer
      then instance answer :: delivered rest
      else delivered rest
  | _ :: rest => delivered rest
  end.

(** A listener as its constructor leaves it, for a user state [u]. *)
Definition initial (u : U) : state := State [] [] 0 [] u [].

End Subscription.

Arguments state T U : clear implicits.
Arguments event T : clear implicits.

(** ** The constructor of [Subscriber<T>] *)

(** Calls on the [dds::DomainParticipant] (and, for the reader, on the
    [dds::Subscriber] it created). *)
Inductive participant_call : Type :=
| register_type
| lookup_topicdescription (topic : string)
| create_topic (topic : string)
| create_subscriber
| create_datareader (topic_ : Z)
| delete_topic (topic_ : Z)
| delete_subscriber (subscriber_ : Z).

(** What Fast DDS answers during one construction.  Pointers are
    addresses, [0] for null; the answer to [lookup_topicdescription] is
    taken after the [dynamic_cast] to [Topic *]. *)
Record participant : Type := {
  register_type_answer : Z;
  lookup_topicdescription_answer : Z;
  create_topic_answer : Z;
  create_subscriber_answer : Z;
  create_datareader_answer : Z
}.

Record Subscriber : Type := { topic_ : Z; subscriber_ : Z; reader_ : Z }.

(** [Subscriber<T>::Subscriber(participant, message_type, topic, qos,
    callback_function, channel)]: the object or the exception, and the
    calls made on the participant, in order. *)
Definition Subscriber_new (p : participant) (topic : string) : outcome Subscriber * list participant_call :=
  if negb (register_type_answer p =? RETCODE_OK) then
    (Throws (std_exception "Failed to register message type"), [register_type])
  else
    let after_lookup := [register_type; lookup_topicdescription topic] in
    let topic_found := negb (lookup_topicdescription_answer p =? 0) in
    let the_topic := if topic_found then lookup_topicdescription_answer p else create_topic_answer p in
    let after_topic := if topic_found then after_lookup else after_lookup ++ [create_topic topic] in
    if negb topic_found && (create_topic_answer p =? 0) then
      (Throws (std_exception "Failed to create topic"), after_topic)
    else if create_subscriber_answer p =? 0 then
      (Throws (std_exception "Failed to create subscriber"),
       after_topic ++ [create_subscriber; delete_topic the_topic])
    else if create_datareader_answer p =? 0 then
      (Throws (std_exception "Failed to create datareader"),
       after_topic ++ [create_subscriber; create_datareader the_topic;
                       delete_subscriber (create_subscriber_answer p); delete_topic the_topic])
    else
      (Returns {| topic_ := the_topic;
                  subscriber_ := create_subscriber_answer p;
                  reader_ := create_datareader_answer p |},
       after_topic ++ [create_subscriber; create_datareader the_topic]).

(** Every step of the construction succeeded. *)
Definition constructible (p : participant) : bool :=
  (register_type_answer p =? RETCODE_OK) &&
  (negb (lookup_topicdescription_answer p =? 0) || negb (create_topic_answer p =? 0)) &&
  negb (create_subscriber_answer p =? 0) &&
  negb (create_datareader_answer p =? 0).

End Lwrcl.

(** * Collaborators to run the boundary against *)

Module Simulation.
Import Boundary.

(** No memory left: every [new] throws [std::bad_alloc]. *)
Definition exhausted : Collaborator unit :=
  {| new_Node := fun _ t => (Throws (std_exception "std::bad_alloc"), t);
     method := fun _ t => (Returns 0, t) |}.

(** Objects are handed out at successive addresses; the state is the next
    free address.  Counts are [0]. *)
Definition handing_out : Collaborator positive :=
  {| new_Node := fun _ next => (Returns next, Pos.succ next);
     method := fun c next =>
       match c with
       | Node_create_publisher _ _ _ _
       | Node_create_subscription _ _ _ _ _
       | Node_create_timer _ _ _ => (Returns (Z.pos next), Pos.succ next)
       | _ => (Returns 0, next)
       end |}.

(** A node whose factories fail by returning null. *)
Definition refusing : Collaborator unit :=
  {| new_Node := fun _ t => (Returns 1%positive, t);
     method := fun _ t => (Returns 0, t) |}.

(** A node whose member functions throw. *)
Definition throwing : Collaborator unit :=
  {| new_Node := fun _ t => (Returns 1%positive, t);
     method := fun _ t => (Throws (std_exception "Failed to create topic"), t) |}.

Definition Ping : MessageType := {| type_support := 4096 |}.

(** A fresh process in which ["Ping"] has been registered. *)
Definition started {T} (d : T) : world T :=
  World [] {[ "Ping"%string := Ping ]} false [] d.

(** Two user callbacks on integer messages, the user state counting the
    calls that completed: one never raises, the other raises on message
    [1]. *)
Definition counting : Lwrcl.callback (T:=Z) (U:=nat) :=
  fun _ n => (Lwrcl.Done, S n).

Definition choking : Lwrcl.callback (T:=Z) (U:=nat) :=
  fun m n =>
    if m =? 1 then (Lwrcl.Raised (std_exception "cannot handle 1"), n)
    else (Lwrcl.Done, S n).

(** The transport hands over a valid sample [m]. *)
Definition sample (m : Z) : Lwrcl.event Z :=
  Lwrcl.Data_available (Lwrcl.Taken Lwrcl.RETCODE_OK true m).

End Simulation.

(** * The rest of rcl_like_wrapper.cpp: signals, RCLWNode, whole programs *)

Module Process.
Import Boundary.

(** [SIGINT] and [SIGTERM] of [<csignal>]. *)
Definition SIGINT : Z := 2.
Definition SIGTERM : Z := 15.

Section Process.
Context {T : Type} `{!Collaborator T}.

Local Notation "x <- m ;; k" := (bind m (fun x => k))
  (at level 100, m at next level, right associativity).
Local Notation "m ;;; k" := (bind m (fun _ => k))
  (at level 100, right associativity).

(** [void signal_handler(int signal)] *)
Definition signal_handler (signal : Z) (w : world T) : world T :=
  if (signal =? SIGINT) || (signal =? SIGTERM) then
    World (cerr w) (message_types w) true (calls w) (dds w)
  else w.

(** Whether [std::signal(sig, signal_handler)] answers [SIG_ERR]. *)
Variable std_signal_fails : Z -> bool.

(** [void register_signal_handler()] *)
Definition register_signal_handler : M T unit :=
  fun w =>
    if std_signal_fails SIGINT || std_signal_fails SIGTERM then
      (Throws (std_exception "Failed to set signal handler."), w)
    else (Returns tt, w).

(** [RCLWNode]: the handle of its node and its own stop flag. *)
Record RCLWNode : Type := { node_ptr_ : Z; rclw_node_stop_flag_ : bool }.

(** [RCLWNode::RCLWNode(uint16_t domain_number)] *)
Definition RCLWNode_new (domain_number : Z) : M T RCLWNode :=
  register_signal_handler ;;;
  node_ptr <- create_node domain_number ;;
  if node_ptr =? 0 then
    cerr_endl "Error: Failed to create a node." ;;;
    ret {| node_ptr_ := node_ptr; rclw_node_stop_flag_ := false |}
  else ret {| node_ptr_ := node_ptr; rclw_node_stop_flag_ := false |}.

(** [RCLWNode::~RCLWNode()]: the members as the body leaves them. *)
Definition RCLWNode_delete (n : RCLWNode) : M T RCLWNode :=
  if negb (node_ptr_ n =? 0) then
    destroy_node (node_ptr_ n) ;;;
    ret {| node_ptr_ := 0; rclw_node_stop_flag_ := rclw_node_stop_flag_ n |}
  else ret n.

(** [intptr_t RCLWNode::get_node_pointer()] *)
Definition get_node_pointer (n : RCLWNode) : Z :=
  if negb (node_ptr_ n =? 0) then node_ptr_ n else 0.

(** A program seen from the boundary: the calls it makes on the free
    functions, and the signals that arrive in between. *)
Inductive operation : Type :=
| Init (types : MessageTypes)
| Create_node (domain_id : Z)
| Destroy_node (node_ptr : Z)
| Spin (node_ptr : Z)
| Spin_once (node_ptr : Z)
| Spin_some (node_ptr : Z)
| Stop_spin (node_ptr : Z)
| Create_publisher (node_ptr : Z) (message_type_name topic : string) (qos : TopicQos)
| Publish (publisher_ptr : Z) (message : Message)
| Get_subscriber_count (publisher_ptr : Z)
| Create_subscription (node_ptr : Z) (message_type_name topic : string) (qos : TopicQos) (callback : Callback)
| Get_publisher_count (subscriber_ptr : Z)
| Create_timer (node_ptr : Z) (period : Z) (callback : Callback)
| Signal (signal : Z).

(** One operation: how it ends and the world it leaves.  Results are
    dropped; a signal is handled between two calls and returns. *)
Definition execute (op : operation) : M T unit :=
  match op with
  | Init types => rcl_like_wrapper_init types
  | Create_node domain_id => create_node domain_id ;;; ret tt
  | Destroy_node node_ptr => destroy_node node_ptr
  | Spin node_ptr => spin node_ptr
  | Spin_once node_ptr => spin_once node_ptr
  | Spin_some node_ptr => spin_some node_ptr
  | Stop_spin node_ptr => stop_spin node_ptr
  | Create_publisher node_ptr name topic qos =>
      create_publisher node_ptr name topic qos ;;; ret tt
  | Publish publisher_ptr message => publish publisher_ptr message
  | Get_subscriber_count publisher_ptr => get_subscriber_count publisher_ptr ;;; ret tt
  | Create_subscription node_ptr name topic qos callback =>
      create_subscription node_ptr name topic qos callback ;;; ret tt
  | Get_publisher_count subscriber_ptr => get_publisher_count subscriber_ptr ;;; ret tt
  | Create_timer node_ptr period callback => create_timer node_ptr period callback ;;; ret tt
  | Signal signal => fun w => (Returns tt, signal_handler signal w)
  end.

(** A program runs until an operation does not return: nothing is said
    of what follows an exception or a call without defined behaviour. *)
Fixpoint execute_all (program : list operation) : M T unit :=
  match program with
  | [] => ret tt
  | op :: rest => execute op ;;; execute_all rest
  end.

(** The registry a program builds on top of [registry]. *)
Definition registered (registry : MessageTypes) (program : list operation) : MessageTypes :=
  foldl (fun reg op => match op with Init types => reg ∪ types | _ => reg end)
        registry program.

Definition stops (op : operation) : bool :=
  match op with
  | Signal signal => (signal =? SIGINT) || (signal =? SIGTERM)
  | _ => false
  end.

(** The line [Executor::add_node] writes for a null pointer. *)
Definition add_node_line : string :=
  "Error: Node pointer is null, cannot add to executor.".

(** Handing a list of pointers to [add_node], one after the other. *)
Definition add_nodes (nodes : list Z) : list action := map Add_node nodes.

End Process.

End Process.

(** * Calling Rate::sleep in a loop *)

Module Pacing.

(** A loop calling [sleep] once per turn, [readings] being what
    [steady_clock::now()] answers inside each call: the instants waited
    for, and the object at the end. *)
Fixpoint sleep_each (fuel : nat) (readings : list Z) (r : Rate) : option (list Z * Rate) :=
  match readings with
  | [] => Some ([], r)
  | now :: rest =>
      match Rate_sleep fuel now r with
      | None => None
      | Some (r', t) =>
          match sleep_each fuel rest r' with
          | None => None
          | Some (ts, r'') => Some (t :: ts, r'')
          end
      end
  end.

(** The readings of a steady clock never go back: none is before [from]
    and each is at least the one before. *)
Fixpoint steady (from : Z) (readings : list Z) : Prop :=
  match readings with
  | [] => True
  | now :: rest => from <= now /\ steady now rest
  end.

(** Each call is made within the period that starts at [start], at
    [start + period], and so on. *)
Fixpoint on_schedule (start period : Z) (readings : list Z) : Prop :=
  match readings with
  | [] => True
  | now :: rest => start <= now < start + period /\ on_schedule (start + period) period rest
  end.

(** [n] instants one period apart, the first a period after [start]. *)
Fixpoint grid (start period : Z) (n : nat) : list Z :=
  match n with
  | O => []
  | S n' => (start + period) :: grid (start + period) period n'
  end.

End Pacing.

(** * More of subscriber.hpp: matching, teardown, consistency *)

Module Listener.
Import Lwrcl.

Section Listener.
Context {T U : Type}.
Variable callback_function_ : callback (T:=T) (U:=U).

(** What the transport tells a listener, and what the spinning thread
    does with its queue. *)
Inductive notification : Type :=
| Subscription_matched (current_count : Z)
| Other (ev : event T).

Definition notify (n : notification) : L (T:=T) (U:=U) unit :=
  match n with
  | Subscription_matched current_count => on_subscription_matched current_count
  | Other ev => step callback_function_ ev
  end.

Fixpoint notify_all (history : list notification) : L (T:=T) (U:=U) unit :=
  match history with
  | [] => ret tt
  | n :: rest => bind (notify n) (fun _ => notify_all rest)
  end.

(** The count of the last match notification, [count] if there is none. *)
Fixpoint last_count (count : Z) (history : list notification) : Z :=
  match history with
  | [] => count
  | Subscription_matched current_count :: rest => last_count current_count rest
  | Other _ :: rest => last_count count rest
  end.

(** A state that a listener can be in once [d] has been delivered: no
    more closures than buffered messages, the buffer the tail of [d], the
    callback called with delivered messages only, each call having either
    removed a message or written a line, and the line of the defensive
    branch never written. *)
Definition consistent (d : list T) (s : state T U) : Prop :=
  (length (channel_ s) <= length (message_ptr_buffer_ s))%nat /\
  (exists consumed, consumed ++ message_ptr_buffer_ s = d) /\
  (forall m, m ∈ invocations s -> m ∈ d) /\
  (length (invocations s) + length (message_ptr_buffer_ s) =
     length d + length (cerr s))%nat /\
  "Error: Vector is empty"%string ∉ cerr s.

(** The state of a listener whose callback has raised on every call:
    everything delivered is still buffered, and every call was made with
    the first message. *)
Definition stuck (d : list T) (s : state T U) : Prop :=
  message_ptr_buffer_ s = d /\ (forall m, m ∈ invocations s -> head d = Some m).

End Listener.

(** [reader_]-side calls of the destructor come on top of those on the
    participant. *)
Inductive teardown_call : Type :=
| delete_datareader (subscriber_ reader_ : Z)
| on_participant (c : participant_call).

(** [Subscriber<T>::~Subscriber()] *)
Definition Subscriber_delete (s : Subscriber) : list teardown_call :=
  (if negb (reader_ s =? 0) then [delete_datareader (subscriber_ s) (reader_ s)] else []) ++
  (if negb (subscriber_ s =? 0) then [on_participant (delete_subscriber (subscriber_ s))] else []) ++
  (if negb (topic_ s =? 0) then [on_participant (delete_topic (topic_ s))] else []).

(** The participant of a process in which nothing fails and the topic
    does not exist yet. *)
Definition obliging : participant :=
  {| register_type_answer := RETCODE_OK;
     lookup_topicdescription_answer := 0;
     create_topic_answer := 4096;
     create_subscriber_answer := 8192;
     create_datareader_answer := 12288 |}.

(** A callback that raises whatever the message. *)
Definition refusing_all : callback (T:=Z) (U:=nat) :=
  fun _ n => (Raised unknown_exception, n).

Definition is_delete (c : participant_call) : bool :=
  match c with
  | delete_topic _ | delete_subscriber _ => true
  | _ => false
  end.

End Listener.

(** * The mutex of the executor *)

Module Locking.
Import Boundary.

(** [std::mutex mutex_]: the thread that owns it, if any. *)
Definition mutex : Type := option nat.

(** How [std::lock_guard<std::mutex> lock(mutex_)] goes for the calling
    thread: it gets the mutex, runs the rest of the block and releases
    it; or another thread owns the mutex and the caller waits for it; or
    the caller owns it already, and [lock()] on a mutex that is not
    recursive never returns. *)
Inductive acquisition (A : Type) : Type :=
| Acquired (a : A)
| Waiting
| Deadlock.

Arguments Acquired {A} a.
Arguments Waiting {A}.
Arguments Deadlock {A}.

Definition lock_guard {A} (caller : nat) (mutex_ : mutex) (block : A) : acquisition A :=
  match mutex_ with
  | None => Acquired block
  | Some owner => if Nat.eqb owner caller then Deadlock else Waiting
  end.

Section Locking.
Context {T : Type} `{!Collaborator T}.

(** [void Executor::remove_node(intptr_t node_ptr)], called by the thread
    [caller]. *)
Definition remove_node (caller : nat) (mutex_ : mutex) (node_ptr : Z)
    (e : Executor) (w : world T) : acquisition (outcome unit * (Executor * world T)) :=
  lock_guard caller mutex_ (Executor_remove_node node_ptr e w).

(** The user callbacks that a [spin_some] runs hand [removals] to
    [remove_node], one after the other, on the thread that runs them. *)
Fixpoint remove_each (caller : nat) (mutex_ : mutex) (removals : list Z)
    (e : Executor) (w : world T) : acquisition (Executor * world T) :=
  match removals with
  | [] => Acquired (e, w)
  | node_ptr :: rest =>
      match remove_node caller mutex_ node_ptr e w with
      | Acquired (_, (e', w')) => remove_each caller mutex_ rest e' w'
      | Waiting => Waiting
      | Deadlock => Deadlock
      end
  end.

(** The [for] loop of [Executor::spin], run by the thread [spinner],
    which owns [mutex_] throughout.  [callbacks node_ptr] are the nodes
    that the user callbacks run by [spin_some(node_ptr)] hand to
    [remove_node] of this executor. *)
Fixpoint spin_each_owning (spinner : nat) (callbacks : Z -> list Z) (nodes : list Z)
    (e : Executor) (w : world T) : acquisition (outcome unit * (Executor * world T)) :=
  match nodes with
  | [] => Acquired (Returns tt, (e, w))
  | node_ptr :: rest =>
      match (if node_ptr =? 0 then cerr_endl "node pointer is invalid!"
             else spin_some node_ptr) w with
      | (Returns _, w1) =>
          match remove_each spinner (Some spinner)
                  (if node_ptr =? 0 then [] else callbacks node_ptr) e w1 with
          | Acquired (e1, w2) => spin_each_owning spinner callbacks rest e1 w2
          | Waiting => Waiting
          | Deadlock => Deadlock
          end
      | (r, w1) => Acquired (r, (e, w1))
      end
  end.

(** One evaluation of the loop condition of [Executor::spin] by the
    thread [spinner] and, when it holds, one pass of the loop body under
    the lock guard. *)
Definition Executor_spin_pass (spinner : nat) (mutex_ : mutex) (callbacks : Z -> list Z)
    (e : Executor) (w : world T) : acquisition (outcome unit * (Executor * world T)) :=
  if running_ e && negb (global_stop_flag w) then
    match lock_guard spinner mutex_ tt with
    | Acquired _ => spin_each_owning spinner callbacks (nodes_ e) e w
    | Waiting => Waiting
    | Deadlock => Deadlock
    end
  else Acquired (Returns tt, (e, w)).

End Locking.

End Locking.

(** * Facts about the handle boundary *)

Import Boundary.

Section BoundaryFacts.
Context {T : Type} `{!Collaborator T}.

Implicit Types (w : world T) (types registry : MessageTypes).

(** ** The type registry *)

Lemma register_type_lookup registry (type : string * MessageType) name :
  register_type registry type !! name =
    match registry !! name with
    | Some d => Some d
    | None => if decide (type.1 = name) then Some type.2 else None
    end.
Proof.
  unfold register_type.
  destruct (registry !! type.1) as [d0|] eqn:Hk.
  - destruct (registry !! name) as [d|] eqn:Hn; [done|].
    case_decide as Heq; [congruence | done].
  - rewrite lookup_insert. case_decide as Heq.
    + subst name. by rewrite Hk.
    + by destruct (registry !! name).
Qed.

Lemma foldl_register_type_lookup (l : list (string * MessageType)) registry name :
  foldl register_type registry l !! name =
    match registry !! name with
    | Some d => Some d
    | None => (list_to_map l : MessageTypes) !! name
    end.
Proof.
  revert registry. induction l as [|[k v] l IH]; intros registry; simpl.
  - by destruct (registry !! name).
  - rewrite IH, register_type_lookup. simpl.
    destruct (registry !! name) as [d|] eqn:Hn; [done|].
    case_decide as Heq.
    + subst k. by rewrite lookup_insert_eq.
    + by rewrite lookup_insert_ne.
Qed.

Lemma init_registry_lookup types w name :
  message_types (rcl_like_wrapper_init types w).2 !! name =
    match message_types w !! name with
    | Some d => Some d
    | None => types !! name
    end.
Proof.
  unfold rcl_like_wrapper_init; simpl.
  by rewrite foldl_register_type_lookup, list_to_map_to_list.
Qed.

(** C9.  For every mapping [types] handed to [rcl_like_wrapper_init] and
    every prior registry, the call returns and the registry afterwards is
    the old one with the new names added: a name that was registered keeps
    the descriptor it had, a name that was not gets the descriptor [types]
    gives it (if any), nothing is removed, and nothing else in the world
    changes. *)
Theorem C9_init_adds_and_never_overwrites types w :
  exists w',
    rcl_like_wrapper_init types w = (Returns tt, w') /\
    (forall name d, message_types w !! name = Some d ->
                    message_types w' !! name = Some d) /\
    (forall name, message_types w !! name = None ->
                  message_types w' !! name = types !! name) /\
    message_types w' = message_types w ∪ types /\
    cerr w' = cerr w /\ calls w' = calls w /\ dds w' = dds w /\
    global_stop_flag w' = global_stop_flag w.
Proof.
  exists (rcl_like_wrapper_init types w).2.
  split; [reflexivity|].
  split; [|split; [|split]].
  - intros name d Hd. by rewrite init_registry_lookup, Hd.
  - intros name Hn. by rewrite init_registry_lookup, Hn.
  - apply map_eq; intros name.
    rewrite init_registry_lookup, lookup_union.
    destruct (message_types w !! name), (types !! name); done.
  - done.
Qed.

(** ** A zero handle *)

(** The ten operations that test their handle: one line on [std::cerr],
    the default value, and no call across the boundary. *)
Lemma zero_handle_is_refused w topic name qos callback message period :
  spin 0 w = (Returns tt, refused "node pointer is invalid!" w) /\
  spin_once 0 w = (Returns tt, refused "node pointer is invalid!" w) /\
  spin_some 0 w = (Returns tt, refused "node pointer is invalid!" w) /\
  stop_spin 0 w = (Returns tt, refused "node pointer is invalid!" w) /\
  create_publisher 0 name topic qos w = (Returns 0, refused "node pointer is invalid!" w) /\
  create_subscription 0 name topic qos callback w = (Returns 0, refused "node pointer is invalid!" w) /\
  create_timer 0 period callback w = (Returns 0, refused "node pointer is invalid!" w) /\
  publish 0 message w = (Returns tt, refused "publisher pointer is invalid!" w) /\
  get_subscriber_count 0 w = (Returns 0, refused "publisher pointer is invalid!" w) /\
  get_publisher_count 0 w = (Returns 0, refused "subscriber pointer is invalid!" w).
Proof. repeat split. Qed.

(** C1.  [destroy_node] is the one operation of the boundary that does not
    test its handle: given the zero handle it writes nothing to
    [std::cerr] and makes the member call [node->destroy()] through the
    null pointer, which has no defined behaviour.  The ten other
    operations, given the zero handle, write their line and return their
    default without any call. *)
Theorem C1_destroy_node_dereferences_zero_handle w :
  destroy_node 0 w = (Undefined, w) /\
  (forall topic name qos callback message period,
      spin 0 w = (Returns tt, refused "node pointer is invalid!" w) /\
      spin_once 0 w = (Returns tt, refused "node pointer is invalid!" w) /\
      spin_some 0 w = (Returns tt, refused "node pointer is invalid!" w) /\
      stop_spin 0 w = (Returns tt, refused "node pointer is invalid!" w) /\
      create_publisher 0 name topic qos w = (Returns 0, refused "node pointer is invalid!" w) /\
      create_subscription 0 name topic qos callback w = (Returns 0, refused "node pointer is invalid!" w) /\
      create_timer 0 period callback w = (Returns 0, refused "node pointer is invalid!" w) /\
      publish 0 message w = (Returns tt, refused "publisher pointer is invalid!" w) /\
      get_subscriber_count 0 w = (Returns 0, refused "publisher pointer is invalid!" w) /\
      get_publisher_count 0 w = (Returns 0, refused "subscriber pointer is invalid!" w)).
Proof.
  split; [reflexivity|].
  intros. apply zero_handle_is_refused.
Qed.

(** ** Creating objects *)

Lemma null_test_is_identity (m : M T Z) w :
  bind m (fun p => if p =? 0 then ret 0 else ret p) w = m w.
Proof.
  unfold bind, ret. destruct (m w) as [[p| |] w']; try reflexivity.
  destruct (p =? 0) eqn:Hp; [|reflexivity].
  apply Z.eqb_eq in Hp. by subst p.
Qed.

Lemma member_call_nonzero object c w :
  object <> 0 ->
  member_call object c w =
    ((method c (dds w)).1,
     set_dds (method c (dds w)).2 (set_calls (fun l => l ++ [c]) w)).
Proof.
  intros Hobj. unfold member_call.
  destruct (object =? 0) eqn:Hz; [apply Z.eqb_eq in Hz; contradiction|].
  by destruct (method c (dds w)).
Qed.

(** C6.  Whatever the node handle, topic, QoS and callback, and whatever
    the collaborator would answer, [create_subscription] with a type name
    that is not in the registry returns [0]; no call crosses the boundary,
    and the registry and the collaborator's state are as before (the world
    is untouched altogether unless the handle was zero, when one line goes
    to [std::cerr]). *)
Theorem C6_unregistered_type_is_refused node_ptr name topic qos callback w :
  message_types w !! name = None ->
  exists w',
    create_subscription node_ptr name topic qos callback w = (Returns 0, w') /\
    message_types w' = message_types w /\
    calls w' = calls w /\
    dds w' = dds w /\
    global_stop_flag w' = global_stop_flag w /\
    (node_ptr <> 0 -> w' = w).
Proof.
  intros Hname. unfold create_subscription.
  destruct (node_ptr =? 0) eqn:Hz.
  - eexists. split; [reflexivity|]. apply Z.eqb_eq in Hz.
    repeat split; try reflexivity. intros Hne. contradiction.
  - exists w. rewrite Hname. repeat split; reflexivity.
Qed.

(** C10.  For every domain id [create_node] does exactly what the [new]
    expression does: the test of the pointer never selects [return 0].
    If it returns, the handle is not zero; if the allocation or the
    constructor throws, the exception is the outcome of [create_node]. *)
Theorem C10_create_node_never_returns_zero domain_id w :
  create_node domain_id w = new_Node_expression domain_id w /\
  (create_node domain_id w).1 <> Returns 0 /\
  (forall h w', create_node domain_id w = (Returns h, w') -> h <> 0) /\
  (forall e, (new_Node domain_id (dds w)).1 = Throws e ->
             (create_node domain_id w).1 = Throws e).
Proof.
  assert (Heq : create_node domain_id w = new_Node_expression domain_id w).
  { unfold create_node, bind, new_Node_expression, ret.
    destruct (new_Node domain_id (dds w)) as [[a| |] d]; reflexivity. }
  assert (Hnz : forall h w', new_Node_expression domain_id w = (Returns h, w') -> h <> 0).
  { unfold new_Node_expression. intros h w'.
    destruct (new_Node domain_id (dds w)) as [[a| |] d]; intros [= <- _] || intros [=].
    discriminate. }
  rewrite Heq. repeat split.
  - destruct (new_Node_expression domain_id w) as [r w'] eqn:Hr. simpl.
    intros ->. by apply (Hnz 0 w').
  - exact Hnz.
  - intros e. unfold new_Node_expression.
    destruct (new_Node domain_id (dds w)) as [[a| |] d]; simpl; congruence.
Qed.


(** The constructor of [Subscriber] signals every failure by throwing a
    [std::runtime_error]; it yields an object only when every step
    succeeded. *)
Lemma Subscriber_new_fails_by_throwing (p : Lwrcl.participant) (topic : string) :
  if Lwrcl.constructible p
  then exists s, (Lwrcl.Subscriber_new p topic).1 = Returns s /\
                 Lwrcl.reader_ s <> 0 /\ Lwrcl.subscriber_ s <> 0 /\ Lwrcl.topic_ s <> 0
  else exists what, (Lwrcl.Subscriber_new p topic).1 = Throws (std_exception what).
Proof.
  unfold Lwrcl.constructible, Lwrcl.Subscriber_new.
  destruct (Lwrcl.register_type_answer p =? Lwrcl.RETCODE_OK); simpl; [|eauto].
  destruct (Lwrcl.lookup_topicdescription_answer p =? 0) eqn:Hl; simpl.
  - destruct (Lwrcl.create_topic_answer p =? 0) eqn:Ht; simpl; [eauto|].
    destruct (Lwrcl.create_subscriber_answer p =? 0) eqn:Hs; simpl; [eauto|].
    destruct (Lwrcl.create_datareader_answer p =? 0) eqn:Hr; simpl; [eauto|].
    eexists; split; [reflexivity|]. simpl.
    apply Z.eqb_neq in Ht, Hs, Hr. done.
  - destruct (Lwrcl.create_subscriber_answer p =? 0) eqn:Hs; simpl; [eauto|].
    destruct (Lwrcl.create_datareader_answer p =? 0) eqn:Hr; simpl; [eauto|].
    eexists; split; [reflexivity|]. simpl.
    apply Z.eqb_neq in Hl, Hs, Hr. done.
Qed.

End BoundaryFacts.

(** With a node that exists and ["Pong"] not registered, the theorem
    applies: nothing reaches the node. *)
Lemma C6_unregistered_type_witness :
  exists w',
    @create_subscription positive Simulation.handing_out 4096 "Pong" "ping" 0 7
      (Simulation.started 8192%positive) = (Returns 0, w') /\
    message_types w' = message_types (Simulation.started 8192%positive) /\
    calls w' = calls (Simulation.started 8192%positive) /\
    dds w' = dds (Simulation.started 8192%positive) /\
    global_stop_flag w' = global_stop_flag (Simulation.started 8192%positive) /\
    (4096 <> 0 -> w' = Simulation.started 8192%positive).
Proof.
  apply (@C6_unregistered_type_is_refused positive Simulation.handing_out
           4096 "Pong" "ping" 0 7 (Simulation.started 8192%positive)).
  vm_compute. reflexivity.
Defined.

(** C4.  Where the claim has [0] returned, the failure logged and no
    exception across the boundary, the code does this.  With no memory
    left [create_node] does not return [0]: [std::bad_alloc] leaves
    through it, its test of the pointer coming too late.  A subscription
    for an unregistered type, and one the node refuses by returning null,
    come back as [0] with nothing written to [std::cerr], unlike the
    refusal of a zero handle.  And an exception thrown by the node's
    [create_subscription], as the constructor of [Subscriber] throws on
    every failure, leaves through [create_subscription]. *)
Lemma C4_failure_unlogged_or_thrown :
  let no_memory :=
    @create_node unit Simulation.exhausted 0 (Simulation.started tt) in
  let unregistered :=
    @create_subscription unit Simulation.refusing 4096 "Pong" "ping" 0 7 (Simulation.started tt) in
  let null_from_node :=
    @create_subscription unit Simulation.refusing 4096 "Ping" "ping" 0 7 (Simulation.started tt) in
  let zero_handle :=
    @create_subscription unit Simulation.refusing 0 "Ping" "ping" 0 7 (Simulation.started tt) in
  let node_throws :=
    @create_subscription unit Simulation.throwing 4096 "Ping" "ping" 0 7 (Simulation.started tt) in
  (no_memory.1 = Throws (std_exception "std::bad_alloc") /\ cerr no_memory.2 = []) /\
  (unregistered.1 = Returns 0 /\ cerr unregistered.2 = []) /\
  (null_from_node.1 = Returns 0 /\ cerr null_from_node.2 = []) /\
  (zero_handle.1 = Returns 0 /\ cerr zero_handle.2 = ["node pointer is invalid!"%string]) /\
  node_throws.1 = Throws (std_exception "Failed to create topic").
Proof. vm_compute. repeat split. Qed.

(** * Facts about the executor *)

Section ExecutorFacts.
Context {T : Type} `{!Collaborator T}.

Implicit Types (w : world T) (e : Executor) (nodes : list Z).

Lemma member_call_calls object c w r w' :
  member_call object c w = (r, w') ->
  calls w' = calls w \/ (object <> 0 /\ calls w' = calls w ++ [c]).
Proof.
  unfold member_call. destruct (object =? 0) eqn:Hz.
  - intros [= _ <-]. by left.
  - apply Z.eqb_neq in Hz. destruct (method c (dds w)) as [r0 d].
    intros [= _ <-]. by right.
Qed.

(** The shape shared by [spin], [spin_once], [spin_some] and [stop_spin]:
    at most the one member call, and exactly that one when the function
    returns from a handle that is not zero. *)
Lemma guarded_call_calls (node_ptr : Z) c w r w' :
  (if node_ptr =? 0 then bind (cerr_endl "node pointer is invalid!") (fun _ => ret tt)
   else bind (member_call node_ptr c) (fun _ => ret tt)) w = (r, w') ->
  (r = Returns tt -> calls w' = calls w ++ (if node_ptr =? 0 then [] else [c])) /\
  (calls w' = calls w \/ (node_ptr <> 0 /\ calls w' = calls w ++ [c])).
Proof.
  destruct (node_ptr =? 0) eqn:Hz.
  - intros [= <- <-]. simpl. rewrite app_nil_r. by split; [|left].
  - unfold bind, ret.
    destruct (member_call node_ptr c w) as [[a| |] w1] eqn:Hm; intros [= <- <-];
      pose proof (member_call_calls _ _ _ _ _ Hm) as Hc; split; try done.
    intros _. revert Hm. unfold member_call. rewrite Hz.
    destruct (method c (dds w)). by intros [= _ <-].
Qed.

(** One turn of the loop of [Executor::stop] or [Executor::spin]. *)
Lemma turn_calls (f : Z -> M T unit) (c : Z -> call) (node_ptr : Z) w r w' :
  (forall p, f p = (if p =? 0 then bind (cerr_endl "node pointer is invalid!") (fun _ => ret tt)
                    else bind (member_call p (c p)) (fun _ => ret tt))) ->
  (if node_ptr =? 0 then cerr_endl "node pointer is invalid!" else f node_ptr) w = (r, w') ->
  (r = Returns tt -> calls w' = calls w ++ map c (nonzero [node_ptr])) /\
  (calls w' = calls w \/ (node_ptr <> 0 /\ calls w' = calls w ++ [c node_ptr])).
Proof.
  intros Hf. unfold nonzero. simpl. destruct (node_ptr =? 0) eqn:Hz; simpl.
  - intros [= <- <-]. simpl. rewrite app_nil_r. by split; [|left].
  - rewrite Hf. intros Hrun. apply guarded_call_calls in Hrun.
    by rewrite Hz in Hrun.
Qed.

Lemma stop_each_calls nodes w r w' :
  stop_each nodes w = (r, w') ->
  (r = Returns tt -> calls w' = calls w ++ map Node_stop_spin (nonzero nodes)) /\
  exists new, calls w' = calls w ++ new /\
              Forall (fun c => exists q, q ∈ nodes /\ c = Node_stop_spin q) new.
Proof.
  revert w. induction nodes as [|p nodes IH]; intros w; simpl.
  - intros [= <- <-]. split; [by rewrite app_nil_r|].
    exists []. by rewrite app_nil_r.
  - unfold bind at 1.
    destruct ((if p =? 0 then cerr_endl "node pointer is invalid!" else stop_spin p) w)
      as [r1 w1] eqn:Hturn.
    apply (turn_calls stop_spin Node_stop_spin) in Hturn as [Hret Hsome]; [|done].
    assert (Hnew1 : exists new, calls w1 = calls w ++ new /\
              Forall (fun c => exists q, q ∈ p :: nodes /\ c = Node_stop_spin q) new).
    { destruct Hsome as [->|[_ ->]].
      - exists []. by rewrite app_nil_r.
      - eexists; split; [done|]. repeat constructor. eexists; split; [|done].
        apply elem_of_cons. by left. }
    destruct r1 as [[]| |].
    + intros Hrest. apply IH in Hrest as [Hret2 (new2 & Hc2 & Hall2)]. split.
      * intros Hr. rewrite (Hret2 Hr), (Hret eq_refl).
        unfold nonzero; simpl. destruct (p =? 0); simpl.
        -- by rewrite app_nil_r.
        -- by rewrite <- app_assoc.
      * destruct Hnew1 as (new1 & Hc1 & Hall1).
        exists (new1 ++ new2). rewrite Hc2, Hc1, app_assoc. split; [done|].
        apply Forall_app; split; [done|].
        eapply Forall_impl; [exact Hall2|]. intros c (q & Hq & ->).
        exists q. split; [apply elem_of_cons; by right|done].
    + intros [= <- <-]. split; [done|exact Hnew1].
    + intros [= <- <-]. split; [done|exact Hnew1].
Qed.

Lemma spin_each_calls nodes w r w' :
  spin_each nodes w = (r, w') ->
  exists new, calls w' = calls w ++ new /\
              Forall (fun c => exists q, q ∈ nodes /\ c = Node_spin_some q) new.
Proof.
  revert w. induction nodes as [|p nodes IH]; intros w; simpl.
  - intros [= <- <-]. exists []. by rewrite app_nil_r.
  - unfold bind at 1.
    destruct ((if p =? 0 then cerr_endl "node pointer is invalid!" else spin_some p) w)
      as [r1 w1] eqn:Hturn.
    apply (turn_calls spin_some Node_spin_some) in Hturn as [_ Hsome]; [|done].
    assert (Hnew1 : exists new, calls w1 = calls w ++ new /\
              Forall (fun c => exists q, q ∈ p :: nodes /\ c = Node_spin_some q) new).
    { destruct Hsome as [->|[_ ->]].
      - exists []. by rewrite app_nil_r.
      - eexists; split; [done|]. repeat constructor. eexists; split; [|done].
        apply elem_of_cons. by left. }
    destruct r1 as [[]| |]; [|by intros [= <- <-]..].
    intros Hrest. apply IH in Hrest as (new2 & Hc2 & Hall2).
    destruct Hnew1 as (new1 & Hc1 & Hall1).
    exists (new1 ++ new2). rewrite Hc2, Hc1, app_assoc. split; [done|].
    apply Forall_app; split; [done|].
    eapply Forall_impl; [exact Hall2|]. intros c (q & Hq & ->).
    exists q. split; [apply elem_of_cons; by right|done].
Qed.

(** C7, as the code has it.  [Executor::stop] always leaves the running
    flag false and the node list as it was, and calling it again right
    after changes nothing at all.  Called while the flag is false it does
    nothing; called while the flag is true and returning, it has
    requested [stop_spin] on every non-null registered node, in list
    order. *)
Theorem C7_stop_is_idempotent_and_acts_when_running e w :
  let r := Executor_stop e w in
  running_ r.2.1 = false /\
  nodes_ r.2.1 = nodes_ e /\
  Executor_stop r.2.1 r.2.2 = (Returns tt, r.2) /\
  (running_ e = false -> r = (Returns tt, (e, w))) /\
  (running_ e = true -> r.1 = Returns tt ->
   calls r.2.2 = calls w ++ map Node_stop_spin (nonzero (nodes_ e))).
Proof.
  unfold Executor_stop. destruct e as [[] nodes]; simpl.
  - destruct (stop_each nodes w) as [r w'] eqn:Hrun. simpl.
    repeat split; try done.
    intros _ ->. by apply stop_each_calls in Hrun as [Hret _]; auto.
  - repeat split; try done.
Qed.

Lemma perform_keeps_absent (p : Z) (a : action) e w r e' w' :
  adds p a = false ->
  p ∉ nodes_ e ->
  perform a e w = (r, (e', w')) ->
  (p ∉ nodes_ e') /\
  exists new, calls w' = calls w ++ new /\ Node_spin_some p ∉ new.
Proof.
  intros Hadd Hp. destruct a as [| |q|q|]; simpl.
  - intros [= _ <- <-]. split; [done|]. exists []. rewrite app_nil_r. set_solver.
  - unfold Executor_spin_cycle.
    destruct (running_ e && negb (global_stop_flag w)).
    + destruct (spin_each (nodes_ e) w) as [r1 w1] eqn:Hrun.
      intros [= _ <- <-]. split; [done|].
      apply spin_each_calls in Hrun as (new & Hc & Hall).
      exists new. split; [done|]. intros Hin.
      rewrite Forall_forall in Hall. apply Hall in Hin as (q & Hq & [= ->]).
      contradiction.
    + intros [= _ <- <-]. split; [done|]. exists []. rewrite app_nil_r. set_solver.
  - unfold Executor_add_node. simpl in Hadd. destruct (q =? 0) eqn:Hq; simpl.
    + intros [= _ <- <-]. split; [done|]. exists []. simpl. rewrite app_nil_r. set_solver.
    + intros [= _ <- <-]. simpl. apply Z.eqb_neq in Hadd. split.
      { apply not_elem_of_app. split; [done|]. rewrite list_elem_of_singleton. congruence. }
      exists []. rewrite app_nil_r. set_solver.
  - unfold Executor_remove_node. intros [= _ <- <-]. simpl. split.
    + rewrite list_elem_of_In, filter_In. intros [Hin _].
      by apply Hp, list_elem_of_In.
    + exists []. rewrite app_nil_r. set_solver.
  - unfold Executor_stop. destruct (running_ e).
    + destruct (stop_each (nodes_ e) w) as [r1 w1] eqn:Hrun.
      intros [= _ <- <-]. split; [done|].
      apply stop_each_calls in Hrun as [_ (new & Hc & Hall)].
      exists new. split; [done|]. intros Hin.
      rewrite Forall_forall in Hall. by apply Hall in Hin as (q & Hq & [=]).
    + intros [= _ <- <-]. split; [done|]. exists []. rewrite app_nil_r. set_solver.
Qed.

Lemma run_keeps_absent (p : Z) (schedule : list action) e w r e' w' :
  forallb (fun a => negb (adds p a)) schedule = true ->
  p ∉ nodes_ e ->
  run schedule e w = (r, (e', w')) ->
  (p ∉ nodes_ e') /\
  exists new, calls w' = calls w ++ new /\ Node_spin_some p ∉ new.
Proof.
  revert e w. induction schedule as [|a schedule IH]; intros e w; simpl.
  - intros _ Hp [= _ <- <-]. split; [done|]. exists []. rewrite app_nil_r. set_solver.
  - intros [Ha Hrest]%andb_prop Hp. apply negb_true_iff in Ha.
    destruct (perform a e w) as [r1 [e1 w1]] eqn:Hone.
    destruct (perform_keeps_absent p a e w r1 e1 w1 Ha Hp Hone) as [Hp1 (new1 & Hc1 & Hn1)].
    assert (Hstop : (r1, (e1, w1)) = (r, (e', w')) ->
              (p ∉ nodes_ e') /\ exists new, calls w' = calls w ++ new /\ Node_spin_some p ∉ new).
    { intros [= _ <- <-]. eauto. }
    destruct r1 as [[]| |]; [|exact Hstop..].
    intros Hrun. destruct (IH e1 w1 Hrest Hp1 Hrun) as [Hp' (new2 & Hc2 & Hn2)].
    split; [done|]. exists (new1 ++ new2). rewrite Hc2, Hc1, app_assoc.
    split; [done|]. by apply not_elem_of_app.
Qed.

(** [Executor::spin] running alone is a schedule of cycles. *)
Lemma spin_while_is_a_schedule fuel e w res :
  spin_while fuel e w = Some res ->
  exists n, run (repeat Spin_cycle n) e w = res.
Proof.
  revert w. induction fuel as [|fuel IH]; intros w; simpl.
  - destruct (running_ e && negb (global_stop_flag w)) eqn:Hcond; [done|].
    intros [= <-]. by exists O.
  - destruct (running_ e && negb (global_stop_flag w)) eqn:Hcond.
    + destruct (spin_each (nodes_ e) w) as [[[]| |] w1] eqn:Hpass.
      * intros Hrest. destruct (IH w1 Hrest) as [n Hn]. exists (S n). simpl.
        unfold Executor_spin_cycle. by rewrite Hcond, Hpass.
      * intros [= <-]. exists 1%nat. simpl.
        unfold Executor_spin_cycle. by rewrite Hcond, Hpass.
      * intros [= <-]. exists 1%nat. simpl.
        unfold Executor_spin_cycle. by rewrite Hcond, Hpass.
    + intros [= <-]. by exists O.
Qed.

Lemma cycles_add_nothing (p : Z) n :
  forallb (fun a => negb (adds p a)) (repeat Spin_cycle n) = true.
Proof. induction n; simpl; done. Qed.

(** A pass of [spin] whose callbacks leave the executor alone, started
    while the mutex is free, is a cycle of the schedules above. *)
Lemma spin_each_owning_without_reentry (spinner : nat) nodes e w :
  Locking.spin_each_owning spinner (fun _ => []) nodes e w =
    Locking.Acquired (let (r, w') := spin_each nodes w in (r, (e, w'))).
Proof.
  revert w. induction nodes as [|node_ptr nodes IH]; intros w; simpl; [done|].
  unfold bind at 1.
  destruct ((if node_ptr =? 0 then cerr_endl "node pointer is invalid!"
             else spin_some node_ptr) w) as [[[]| |] w1]; try done.
  destruct (node_ptr =? 0); simpl; apply IH.
Qed.


End ExecutorFacts.

(** C7 as stated fails.  An executor that holds a node but whose [spin]
    has not been entered has its flag false: [stop] returns without a
    single [stop_spin]. *)
Lemma C7_stop_before_spin_requests_nothing :
  let w := Simulation.started 8192%positive in
  let e := (Executor_add_node 4096 Executor_new w).2.1 in
  nodes_ e = [4096] /\
  @Executor_stop positive Simulation.handing_out e w = (Returns tt, (e, w)) /\
  calls (@Executor_stop positive Simulation.handing_out e w).2.2 = [].
Proof. vm_compute. repeat split. Qed.



(** * Facts about Rate *)

Section RateFacts.

Implicit Types (r : Rate) (now : Z).

Lemma geb_false now t : now < t -> (now >=? t) = false.
Proof. intros H. rewrite Z.geb_leb. by apply Z.leb_gt. Qed.

Lemma geb_true now t : t <= now -> (now >=? t) = true.
Proof. intros H. rewrite Z.geb_leb. by apply Z.leb_le. Qed.

Lemma wrap64_representable z : representable z -> wrap64 z = z.
Proof.
  unfold representable, int64_min, int64_max, wrap64. intros H.
  rewrite Z.mod_small; lia.
Qed.

(** The conversion of a period that fits. *)
Lemma period_ticks_representable r :
  representable (period_ r * ticks_per_millisecond) ->
  period_ticks r = period_ r * ticks_per_millisecond.
Proof. apply wrap64_representable. Qed.

Lemma advance_in_range r :
  representable (next_time_ r + period_ticks r) ->
  advance r = {| period_ := period_ r; next_time_ := next_time_ r + period_ticks r |}.
Proof. intros H. unfold advance. by rewrite (wrap64_representable _ H). Qed.

Lemma catch_up_enough (k : nat) now r :
  next_time_ r + (Z.of_nat k - 1) * period_ticks r <= now < next_time_ r + Z.of_nat k * period_ticks r ->
  0 < period_ticks r ->
  int64_min <= next_time_ r ->
  now + period_ticks r <= int64_max ->
  forall fuel, (k <= fuel)%nat ->
    catch_up fuel now r =
      Some {| period_ := period_ r; next_time_ := next_time_ r + Z.of_nat k * period_ticks r |}.
Proof.
  revert r. induction k as [|k IH]; intros r Hk HP Hmin Hmax fuel Hfuel.
  - assert (Hlt : (now >=? next_time_ r) = false) by (apply geb_false; lia).
    destruct fuel; simpl; rewrite Hlt; destruct r; simpl; f_equal; f_equal; lia.
  - destruct fuel as [|fuel]; [lia|]. simpl.
    assert (Hge : (now >=? next_time_ r) = true) by (apply geb_true; lia).
    rewrite Hge, advance_in_range by (unfold representable; lia).
    set (r1 := {| period_ := period_ r; next_time_ := next_time_ r + period_ticks r |}).
    assert (Hticks : period_ticks r1 = period_ticks r) by reflexivity.
    rewrite (IH r1); rewrite ?Hticks; simpl; try lia.
    f_equal. f_equal. lia.
Qed.

Lemma catch_up_result fuel now r r' :
  0 < period_ticks r ->
  int64_min <= next_time_ r ->
  now + period_ticks r <= int64_max ->
  catch_up fuel now r = Some r' ->
  period_ r' = period_ r /\ now < next_time_ r' /\
  next_time_ r' <= Z.max (next_time_ r) (now + period_ticks r) /\
  exists k : nat, next_time_ r' = next_time_ r + Z.of_nat k * period_ticks r.
Proof.
  intros HP. revert r HP. induction fuel as [|fuel IH]; intros r HP Hmin Hmax; simpl.
  - destruct (now >=? next_time_ r) eqn:Hge; [done|].
    intros [= <-]. rewrite Z.geb_leb in Hge. apply Z.leb_gt in Hge.
    split; [done|]. split; [done|]. split; [lia|]. exists O. lia.
  - destruct (now >=? next_time_ r) eqn:Hge.
    + rewrite Z.geb_leb in Hge. apply Z.leb_le in Hge.
      rewrite advance_in_range by (unfold representable; lia).
      set (r1 := {| period_ := period_ r; next_time_ := next_time_ r + period_ticks r |}).
      assert (Hticks : period_ticks r1 = period_ticks r) by reflexivity.
      intros Hrest. apply IH in Hrest as (Hp & Hlt & Hle & k & Hk);
        rewrite ?Hticks; simpl; try lia.
      rewrite Hticks in Hle, Hk. simpl in Hle, Hk.
      split; [done|]. split; [done|]. split; [lia|]. exists (S k). lia.
    + intros [= <-]. rewrite Z.geb_leb in Hge. apply Z.leb_gt in Hge.
      split; [done|]. split; [done|]. split; [lia|]. exists O. lia.
Qed.

Lemma catch_up_never_ends fuel now r :
  period_ r = 0 -> representable (next_time_ r) -> next_time_ r <= now ->
  catch_up fuel now r = None.
Proof.
  intros HP Hrep Hnow.
  assert (Hsame : advance r = r).
  { unfold advance, period_ticks. rewrite HP. simpl.
    change (wrap64 0) with 0. rewrite Z.add_0_r, (wrap64_representable _ Hrep).
    destruct r; simpl in *. by subst. }
  induction fuel as [|fuel IH]; simpl; rewrite geb_true by done; [done|].
  by rewrite Hsame.
Qed.

(** A [sleep] that is behind schedule moves [next_time_] by the least
    positive number of periods that puts it after [now]. *)
Lemma Rate_sleep_returns now r :
  0 < period_ticks r ->
  int64_min <= next_time_ r ->
  now + period_ticks r <= int64_max ->
  exists fuel r' t,
    (forall fuel', (fuel <= fuel')%nat -> Rate_sleep fuel' now r = Some (r', t)) /\
    t = next_time_ r' /\ period_ r' = period_ r /\ now < t /\
    (now < next_time_ r -> r' = r) /\
    (next_time_ r <= now ->
     exists k, 1 <= k /\ next_time_ r' = next_time_ r + k * period_ticks r /\
               next_time_ r + (k - 1) * period_ticks r <= now).
Proof.
  intros Hq Hmin Hmax.
  unfold Rate_sleep. destruct (now <? next_time_ r) eqn:Hlt.
  - apply Z.ltb_lt in Hlt. exists O, r, (next_time_ r).
    repeat split; try done. lia.
  - apply Z.ltb_ge in Hlt.
    set (k := (now - next_time_ r) / period_ticks r + 1).
    assert (Hdiv : 0 <= (now - next_time_ r) / period_ticks r)
      by (apply Z.div_pos; lia).
    pose proof (Z.mul_div_le (now - next_time_ r) (period_ticks r) Hq) as Hlo.
    pose proof (Z.mul_succ_div_gt (now - next_time_ r) (period_ticks r) Hq) as Hhi.
    assert (Hk : next_time_ r + (k - 1) * period_ticks r <= now
                 < next_time_ r + k * period_ticks r) by (unfold k; lia).
    exists (Z.to_nat k),
      {| period_ := period_ r; next_time_ := next_time_ r + k * period_ticks r |},
      (next_time_ r + k * period_ticks r).
    split.
    + intros fuel' Hfuel.
      rewrite (catch_up_enough (Z.to_nat k) now r); rewrite ?Z2Nat.id by lia;
        simpl; try done.
    + simpl. repeat split; try done; try lia.
      intros _. exists k. split; [lia|]. split; [done|lia].
Qed.

Lemma Rate_reachable_on_grid (t0 P : Z) r :
  0 < P ->
  representable (P * ticks_per_millisecond) ->
  representable (t0 + P * ticks_per_millisecond) ->
  Rate_reachable t0 P r ->
  period_ r = P /\
  representable (next_time_ r) /\
  exists n : nat, next_time_ r = t0 + (1 + Z.of_nat n) * (P * ticks_per_millisecond).
Proof.
  intros HP HrepP Hrep0.
  induction 1 as [|r fuel now r' t _ (Hper & Hrep & n & Hn) Hnow Hnowq Hsleep].
  - simpl. rewrite (wrap64_representable _ HrepP), (wrap64_representable _ Hrep0).
    split; [done|]. split; [done|]. exists O. simpl. lia.
  - assert (Hticks : period_ticks r = P * ticks_per_millisecond).
    { rewrite period_ticks_representable; by rewrite Hper. }
    unfold Rate_sleep in Hsleep. destruct (now <? next_time_ r).
    + injection Hsleep as <- _. eauto.
    + destruct (catch_up fuel now r) as [r1|] eqn:Hcu; [|done].
      injection Hsleep as <- _.
      unfold representable in *.
      destruct (catch_up_result fuel now r r1) as (Hp1 & Hlt & Hle & k & Hk).
      { rewrite Hticks. unfold ticks_per_millisecond. lia. }
      { lia. }
      { rewrite Hticks. lia. }
      { exact Hcu. }
      rewrite Hticks in Hle, Hk.
      split; [congruence|]. split; [lia|]. exists (n + k)%nat. lia.
Qed.

(** C3, for a positive period and a clock within its range: the period
    in nanoseconds, the construction time plus one period and every
    reading plus one period fit the 64 bits of the clock.  [next_time_]
    starts at the construction time plus the period.  Every [sleep] on
    the object returns; it waits for [next_time_], which is after the clock
    reading the call took, so the wait is never negative.  If that reading
    is before [next_time_], [next_time_] is left as it is; otherwise it
    moves by [k] periods, [k >= 1] being the least that puts it after the
    reading.  Throughout, [next_time_] is the construction time plus a
    whole positive number of periods. *)
Theorem C3_sleep_keeps_to_the_grid (t0 P : Z) :
  0 < P ->
  representable (P * ticks_per_millisecond) ->
  representable (t0 + P * ticks_per_millisecond) ->
  next_time_ (Rate_new t0 P) = t0 + P * ticks_per_millisecond /\
  forall r, Rate_reachable t0 P r ->
    period_ r = P /\
    (exists n, 1 <= n /\ next_time_ r = t0 + n * (P * ticks_per_millisecond)) /\
    forall now,
      representable now ->
      representable (now + P * ticks_per_millisecond) ->
      exists fuel r' t,
        (forall fuel', (fuel <= fuel')%nat -> Rate_sleep fuel' now r = Some (r', t)) /\
        t = next_time_ r' /\ now < t /\ next_time_ r <= next_time_ r' /\
        (now < next_time_ r -> r' = r) /\
        (next_time_ r <= now ->
         exists k, 1 <= k /\
                   next_time_ r' = next_time_ r + k * (P * ticks_per_millisecond) /\
                   next_time_ r + (k - 1) * (P * ticks_per_millisecond) <= now).
Proof.
  intros HP HrepP Hrep0. split.
  { simpl. by rewrite (wrap64_representable _ HrepP), (wrap64_representable _ Hrep0). }
  intros r Hreach.
  apply Rate_reachable_on_grid in Hreach as (Hper & Hrep & n & Hn); try done.
  assert (Hticks : period_ticks r = P * ticks_per_millisecond).
  { rewrite period_ticks_representable; by rewrite Hper. }
  split; [done|]. split.
  - exists (1 + Z.of_nat n). split; [lia|done].
  - intros now Hnow Hnowq. unfold representable in *.
    destruct (Rate_sleep_returns now r) as (fuel & r' & t & Hrun & Ht & _ & Hlt & Hsame & Hlate).
    { rewrite Hticks. unfold ticks_per_millisecond. lia. }
    { lia. }
    { rewrite Hticks. lia. }
    exists fuel, r', t. rewrite Hticks in Hlate.
    repeat split; try done.
    destruct (Z.lt_ge_cases now (next_time_ r)) as [Hbefore|Hbehind].
    + by rewrite (Hsame Hbefore).
    + destruct (Hlate Hbehind) as (k & Hk & -> & _).
      unfold ticks_per_millisecond. nia.
Qed.

End RateFacts.

(** A rate of ten milliseconds constructed at time zero. *)
Lemma C3_sleep_witness :
  (0 < 10 /\ representable (10 * ticks_per_millisecond) /\
   representable (0 + 10 * ticks_per_millisecond)) /\
  next_time_ (Rate_new 0 10) = 0 + 10 * ticks_per_millisecond /\
  forall r, Rate_reachable 0 10 r ->
    period_ r = 10 /\
    (exists n, 1 <= n /\ next_time_ r = 0 + n * (10 * ticks_per_millisecond)) /\
    forall now,
      representable now ->
      representable (now + 10 * ticks_per_millisecond) ->
      exists fuel r' t,
        (forall fuel', (fuel <= fuel')%nat -> Rate_sleep fuel' now r = Some (r', t)) /\
        t = next_time_ r' /\ now < t /\ next_time_ r <= next_time_ r' /\
        (now < next_time_ r -> r' = r) /\
        (next_time_ r <= now ->
         exists k, 1 <= k /\
                   next_time_ r' = next_time_ r + k * (10 * ticks_per_millisecond) /\
                   next_time_ r + (k - 1) * (10 * ticks_per_millisecond) <= now).
Proof.
  assert (H1 : representable (10 * ticks_per_millisecond)) by (vm_compute; split; discriminate).
  assert (H2 : representable (0 + 10 * ticks_per_millisecond)) by (vm_compute; split; discriminate).
  split; [split; [lia|split; assumption]|].
  apply (C3_sleep_keeps_to_the_grid 0 10); [lia|exact H1|exact H2].
Defined.

(** C3 as stated fails for a period of zero: [next_time_] is the
    construction time, no later reading of the clock is before it, and the
    loop of [sleep] adds zero for ever. *)
Lemma C3_zero_period_sleep_never_returns :
  next_time_ (Rate_new 5 0) = 5 /\
  ~ exists fuel, Rate_sleep fuel 7 (Rate_new 5 0) <> None.
Proof.
  split; [reflexivity|]. intros [fuel Hfuel]. apply Hfuel.
  unfold Rate_sleep. change (next_time_ (Rate_new 5 0)) with 5. simpl.
  rewrite (catch_up_never_ends fuel 7 (Rate_new 5 0)); [done|done| |].
  - vm_compute. split; discriminate.
  - vm_compute. discriminate.
Qed.

(** * Facts about subscriptions *)

Section SubscriptionFacts.
Import Lwrcl.
Context {T U : Type} (f : callback (T:=T) (U:=U)).

Implicit Types (s : state T U) (pending : list ChannelCallback).

Local Open Scope nat_scope.

(** What [invoke] does, case by case.  It returns in each. *)
Lemma invoke_cases s :
  invoke f s =
    (Returns tt,
     match message_ptr_buffer_ s with
     | [] =>
         State (cerr s ++ ["Error: Vector is empty"%string]) [] (count s) (channel_ s)
               (user s) (invocations s)
     | front :: rest =>
         match (f front (user s)).1 with
         | Done =>
             State (cerr s) rest (count s) (channel_ s)
                   (f front (user s)).2 (invocations s ++ [front])
         | Raised e =>
             State (cerr s ++ [caught_line e]) (front :: rest) (count s) (channel_ s)
                   (f front (user s)).2 (invocations s ++ [front])
         end
     end).
Proof.
  unfold invoke, try_catch. destruct s as [err buffer n queue u seen]; simpl.
  destruct buffer as [|front rest]; [reflexivity|].
  unfold bind, call_callback_function_; simpl.
  destruct (f front u) as [[|e] u']; simpl; [reflexivity|].
  by destruct e.
Qed.


Lemma drain_runs_every_closure pending :
  forall rest s,
    channel_ s = pending ++ rest ->
    length pending <= length (message_ptr_buffer_ s) ->
    exists s',
      drain f pending s = (Returns (length pending), s') /\
      channel_ s' = rest /\
      length (invocations s') = length (invocations s) + length pending /\
      length (message_ptr_buffer_ s) <= length (message_ptr_buffer_ s') + length pending.
Proof.
  induction pending as [|c pending IH]; intros rest s Hqueue Hlen; simpl.
  - exists s. unfold ret. repeat split; try done; lia.
  - unfold bind at 1. unfold pop_front at 1. unfold bind at 1.
    destruct c. unfold run_closure. rewrite invoke_cases. simpl. rewrite Hqueue. simpl.
    destruct (message_ptr_buffer_ s) as [|front others] eqn:Hbuffer; [simpl in Hlen; lia|].
    simpl in Hlen.
    match goal with |- context [bind (drain f pending) _ ?s1] => set (s1' := s1) end.
    destruct (IH rest s1') as (s' & Hrun & Hrest & Hseen & Hkept).
    { subst s1'. by destruct (f front (user s)).1. }
    { subst s1'. destruct (f front (user s)).1; simpl; lia. }
    exists s'. unfold bind, ret. rewrite Hrun. split; [done|]. split; [done|].
    subst s1'. destruct (f front (user s)).1; simpl in *;
      rewrite ?length_app in *; simpl in *; split; lia.
Qed.

Lemma drain_in_arrival_order pending :
  (forall m u, (f m u).1 = Done) ->
  forall rest s,
    channel_ s = pending ++ rest ->
    length pending <= length (message_ptr_buffer_ s) ->
    exists s',
      drain f pending s = (Returns (length pending), s') /\
      channel_ s' = rest /\
      invocations s' = invocations s ++ take (length pending) (message_ptr_buffer_ s) /\
      message_ptr_buffer_ s' = drop (length pending) (message_ptr_buffer_ s).
Proof.
  intros Hf. induction pending as [|c pending IH]; intros rest s Hqueue Hlen; simpl.
  - exists s. unfold ret. rewrite take_0, drop_0, app_nil_r. done.
  - unfold bind at 1. unfold pop_front at 1. unfold bind at 1.
    destruct c. unfold run_closure. rewrite invoke_cases. simpl. rewrite Hqueue. simpl.
    destruct (message_ptr_buffer_ s) as [|front others] eqn:Hbuffer; [simpl in Hlen; lia|].
    simpl in Hlen. rewrite Hf.
    match goal with |- context [bind (drain f pending) _ ?s1] => set (s1' := s1) end.
    destruct (IH rest s1') as (s' & Hrun & Hrest & Hseen & Hkept);
      [done | simpl; lia |].
    exists s'. unfold bind, ret. rewrite Hrun. split; [done|]. split; [done|].
    subst s1'. simpl in *. by rewrite Hseen, <- app_assoc.
Qed.


Lemma delivered_cons (ev : event T) history :
  delivered (ev :: history) = delivered [ev] ++ delivered history.
Proof.
  destruct ev as [a| |]; simpl; try done.
  by destruct ((retcode a =? RETCODE_OK)%Z && valid_data a).
Qed.

Lemma step_keeps_bound (ev : event T) s :
  length (channel_ s) <= length (message_ptr_buffer_ s) ->
  exists s',
    step f ev s = (Returns tt, s') /\
    length (channel_ s') <= length (message_ptr_buffer_ s').
Proof.
  intros Hbound. destruct ev as [a| |]; simpl.
  - unfold on_data_available.
    destruct ((retcode a =? RETCODE_OK)%Z && valid_data a).
    + eexists. split; [reflexivity|]. simpl. rewrite !length_app. simpl. lia.
    + by exists s.
  - unfold consume_one. destruct (channel_ s) as [|c queue] eqn:Hqueue.
    + exists s. by rewrite Hqueue.
    + unfold bind, pop_front. destruct c. unfold run_closure. rewrite invoke_cases.
      eexists. split; [reflexivity|]. simpl. rewrite Hqueue. simpl in *.
      destruct (message_ptr_buffer_ s) as [|front others]; [simpl in Hbound; lia|].
      simpl in Hbound. destruct (f front (user s)).1; simpl; lia.
  - destruct (drain_runs_every_closure (channel_ s) [] s) as (s' & Hrun & Hrest & _);
      [by rewrite app_nil_r | done |].
    exists s'. unfold bind, drain_available, ret. rewrite Hrun, Hrest. simpl.
    split; [done|lia].
Qed.

Lemma run_keeps_bound (history : list (event T)) :
  forall s,
    length (channel_ s) <= length (message_ptr_buffer_ s) ->
    exists s',
      run f history s = (Returns tt, s') /\
      length (channel_ s') <= length (message_ptr_buffer_ s').
Proof.
  induction history as [|ev history IH]; intros s Hbound; simpl.
  - by exists s.
  - destruct (step_keeps_bound ev s Hbound) as (s1 & Hstep & Hbound1).
    destruct (IH s1 Hbound1) as (s' & Hrun & Hbound').
    exists s'. unfold bind. by rewrite Hstep.
Qed.

Lemma step_in_order (ev : event T) s :
  (forall m u, (f m u).1 = Done) ->
  length (channel_ s) = length (message_ptr_buffer_ s) ->
  exists s',
    step f ev s = (Returns tt, s') /\
    length (channel_ s') = length (message_ptr_buffer_ s') /\
    invocations s' ++ message_ptr_buffer_ s' =
      invocations s ++ message_ptr_buffer_ s ++ delivered [ev].
Proof.
  intros Hf Hsame. destruct ev as [a| |]; simpl.
  - unfold on_data_available.
    destruct ((retcode a =? RETCODE_OK)%Z && valid_data a).
    + eexists. split; [reflexivity|]. simpl. rewrite !length_app. simpl.
      split; [lia|done].
    + exists s. by rewrite app_nil_r.
  - unfold consume_one. destruct (channel_ s) as [|c queue] eqn:Hqueue.
    + exists s. by rewrite Hqueue, app_nil_r.
    + unfold bind, pop_front. destruct c. unfold run_closure. rewrite invoke_cases.
      eexists. split; [reflexivity|]. simpl. rewrite Hqueue. simpl in *.
      destruct (message_ptr_buffer_ s) as [|front others]; [simpl in Hsame; lia|].
      simpl in Hsame. rewrite Hf. simpl. rewrite app_nil_r, <- app_assoc.
      split; [lia|done].
  - destruct (drain_in_arrival_order (channel_ s) Hf [] s) as (s' & Hrun & Hrest & Hseen & Hkept);
      [by rewrite app_nil_r | lia |].
    exists s'. unfold bind, drain_available, ret. rewrite Hrun, Hrest, Hseen, Hkept.
    rewrite Hsame, take_ge, drop_ge by lia. by rewrite !app_nil_r.
Qed.

Lemma run_in_order (history : list (event T)) :
  (forall m u, (f m u).1 = Done) ->
  forall s,
    length (channel_ s) = length (message_ptr_buffer_ s) ->
    exists s',
      run f history s = (Returns tt, s') /\
      length (channel_ s') = length (message_ptr_buffer_ s') /\
      invocations s' ++ message_ptr_buffer_ s' =
        invocations s ++ message_ptr_buffer_ s ++ delivered history.
Proof.
  intros Hf. induction history as [|ev history IH]; intros s Hsame.
  - exists s. simpl. by rewrite app_nil_r.
  - destruct (step_in_order ev s Hf Hsame) as (s1 & Hstep & Hsame1 & Hseen1).
    destruct (IH s1 Hsame1) as (s' & Hrun & Hsame' & Hseen').
    exists s'. split; [simpl; unfold bind; by rewrite Hstep|]. split; [done|].
    rewrite Hseen', (delivered_cons ev history), !app_assoc.
    by rewrite <- (app_assoc (invocations s)), <- Hseen1.
Qed.

(** X19.  For a callback that does not raise.  A sample the transport
    hands over goes to the back of the buffer and one closure goes to the
    back of the queue.  A run of the closure on a buffer that is not empty
    calls the user callback with the message at the front and removes that
    message.  So, after any history of deliveries and spins, the messages
    the callback has been called with, followed by those still buffered,
    are the delivered messages in arrival order, each once, with one
    pending closure per buffered message; and draining the queue then
    leaves the buffer empty and the callback called with every delivered
    message, in arrival order. *)
Theorem callbacks_in_arrival_order_when_none_raises :
  (forall m u, (f m u).1 = Done) ->
  (forall s a,
      retcode a = RETCODE_OK -> valid_data a = true ->
      exists s',
        on_data_available a s = (Returns tt, s') /\
        message_ptr_buffer_ s' = message_ptr_buffer_ s ++ [instance a] /\
        channel_ s' = channel_ s ++ [subscription_callback_] /\
        invocations s' = invocations s /\ user s' = user s) /\
  (forall s front rest,
      message_ptr_buffer_ s = front :: rest ->
      exists s',
        invoke f s = (Returns tt, s') /\
        invocations s' = invocations s ++ [front] /\
        user s' = (f front (user s)).2 /\
        message_ptr_buffer_ s' = rest) /\
  (forall u history,
      exists s,
        run f history (initial u) = (Returns tt, s) /\
        invocations s ++ message_ptr_buffer_ s = delivered history /\
        length (channel_ s) = length (message_ptr_buffer_ s) /\
        exists s',
          drain_available f s = (Returns (length (message_ptr_buffer_ s)), s') /\
          invocations s' = delivered history /\
          message_ptr_buffer_ s' = [] /\
          channel_ s' = []).
Proof.
  intros Hf. split; [|split].
  - intros s a Hok Hvalid. unfold on_data_available. rewrite Hok, Hvalid. simpl.
    eexists. split; [reflexivity|]. done.
  - intros s front rest Hbuffer. eexists. split; [apply invoke_cases|].
    rewrite Hbuffer, Hf. done.
  - intros u history.
    destruct (run_in_order history Hf (initial u) eq_refl) as (s & Hrun & Hsame & Hseen).
    exists s. split; [done|]. split; [done|]. split; [done|].
    destruct (drain_in_arrival_order (channel_ s) Hf [] s) as (s' & Hdrain & Hrest & Hseen' & Hkept);
      [by rewrite app_nil_r | lia |].
    exists s'. unfold drain_available. rewrite Hdrain, Hsame. split; [done|].
    rewrite Hseen', Hkept, Hsame, take_ge, drop_ge by lia. done.
Qed.

(** C5.  Whatever the user callback does, [invoke] returns: when the
    callback raises, whether a [std::exception] or anything else, the
    handler writes its line and nothing leaves.  Hence every history of
    deliveries and spins returns, and a drain of the queue then returns
    the number of closures that were pending, has run each of them (the
    callback has been called once per closure) and leaves the queue
    empty. *)
Theorem C5_exceptions_stop_at_invoke :
  (forall s, exists s', invoke f s = (Returns tt, s')) /\
  (forall s front rest e,
      message_ptr_buffer_ s = front :: rest ->
      (f front (user s)).1 = Raised e ->
      exists s',
        invoke f s = (Returns tt, s') /\
        cerr s' = cerr s ++ [caught_line e] /\
        invocations s' = invocations s ++ [front] /\
        channel_ s' = channel_ s) /\
  (forall u history,
      exists s,
        run f history (initial u) = (Returns tt, s) /\
        exists s',
          drain_available f s = (Returns (length (channel_ s)), s') /\
          channel_ s' = [] /\
          length (invocations s') = length (invocations s) + length (channel_ s)).
Proof.
  split; [|split].
  - intros s. eexists. apply invoke_cases.
  - intros s front rest e Hbuffer Hraised. eexists. split; [apply invoke_cases|].
    rewrite Hbuffer, Hraised. done.
  - intros u history.
    destruct (run_keeps_bound history (initial u)) as (s & Hrun & Hbound); [done|].
    exists s. split; [done|].
    destruct (drain_runs_every_closure (channel_ s) [] s) as (s' & Hdrain & Hrest & Hseen & _);
      [by rewrite app_nil_r | done |].
    by exists s'.
Qed.

End SubscriptionFacts.

(** Three messages are delivered to a subscription whose callback counts,
    with a single spin in between. *)
Lemma callbacks_in_arrival_order_witness :
  (forall m u, (Simulation.counting m u).1 = Lwrcl.Done) /\
  exists s,
    Lwrcl.run Simulation.counting
      [Simulation.sample 1; Simulation.sample 2; Lwrcl.Spin_once; Simulation.sample 3]
      (Lwrcl.initial O) = (Returns tt, s) /\
    Lwrcl.invocations s ++ Lwrcl.message_ptr_buffer_ s = [1; 2; 3] /\
    length (Lwrcl.channel_ s) = length (Lwrcl.message_ptr_buffer_ s).
Proof.
  split; [reflexivity|].
  destruct (callbacks_in_arrival_order_when_none_raises Simulation.counting (fun _ _ => eq_refl))
    as (_ & _ & Hhistory).
  destruct (Hhistory O [Simulation.sample 1; Simulation.sample 2; Lwrcl.Spin_once;
                        Simulation.sample 3])
    as (s & Hrun & Hseen & Hsame & _).
  exists s. split; [exact Hrun|]. split; [exact Hseen|exact Hsame].
Defined.

(** C2.  The callback raises on message [1].  Messages [1] and [2] are
    delivered and the queue is drained: the first closure calls the
    callback with [1], the exception skips the [erase], and the second
    closure calls it with [1] again.  The callback has not been called
    with [2], both messages are still buffered and no closure is left to
    deliver them. *)
Lemma C2_raising_callback_gets_front_again :
  exists s,
    Lwrcl.run Simulation.choking
      [Simulation.sample 1; Simulation.sample 2; Lwrcl.Spin_some]
      (Lwrcl.initial O) = (Returns tt, s) /\
    Lwrcl.invocations s = [1; 1] /\
    Lwrcl.message_ptr_buffer_ s = [1; 2] /\
    Lwrcl.channel_ s = [].
Proof. eexists. split; [vm_compute; reflexivity|]. repeat split. Qed.

(** The scenario of the specification: three messages are delivered, the
    node spins once without blocking; the callback has run three times,
    in delivery order, and the buffer is empty. *)
Example three_messages_one_spin_some :
  Lwrcl.run Simulation.counting
    [Simulation.sample 10; Simulation.sample 20; Simulation.sample 30; Lwrcl.Spin_some]
    (Lwrcl.initial O) =
  (Returns tt, Lwrcl.State [] [] 0 [] 3%nat [10; 20; 30]).
Proof. reflexivity. Qed.

(** * Facts about whole programs at the boundary *)

Section ProcessFacts.
Import Process.
Context {T : Type} `{!Collaborator T}.

Implicit Types (w : world T) (program : list operation).

Ltac open_boundary :=
  unfold create_node, destroy_node, spin, spin_once, spin_some, stop_spin,
    create_publisher, publish, get_subscriber_count, create_subscription,
    get_publisher_count, create_timer, bind, ret, cerr_endl, member_call,
    new_Node_expression, signal_handler.

Lemma init_registry_union (types : MessageTypes) w :
  message_types (rcl_like_wrapper_init types w).2 = message_types w ∪ types.
Proof.
  apply map_eq; intros name.
  rewrite init_registry_lookup, lookup_union.
  destruct (message_types w !! name), (types !! name); done.
Qed.

(** What one operation does to the two globals of the translation unit. *)
Lemma execute_globals w (op : operation) :
  message_types (execute op w).2 =
    match op with Init types => message_types w ∪ types | _ => message_types w end /\
  global_stop_flag (execute op w).2 = global_stop_flag w || stops op.
Proof.
  destruct op;
    [split; [apply init_registry_union | simpl; by rewrite orb_false_r] | ..];
    simpl; rewrite ?orb_false_r; open_boundary;
    repeat case_match; simplify_eq/=; rewrite ?orb_true_r, ?orb_false_r; done.
Qed.

Lemma registered_keeps (registry : MessageTypes) program name d :
  registry !! name = Some d -> registered registry program !! name = Some d.
Proof.
  revert registry. induction program as [|op program IH]; intros registry Hd; [done|].
  simpl. apply IH. destruct op; try done.
  by apply lookup_union_Some_l.
Qed.

Lemma execute_all_globals program :
  forall w w',
    execute_all program w = (Returns tt, w') ->
    message_types w' = registered (message_types w) program /\
    global_stop_flag w' = global_stop_flag w || existsb stops program.
Proof.
  induction program as [|op program IH]; intros w w'; simpl.
  - intros [= <-]. by rewrite orb_false_r.
  - unfold bind at 1. destruct (execute_globals w op) as [Hreg Hflag].
    destruct (execute op w) as [[[]| |] w1]; [|done..].
    intros Hrest. apply IH in Hrest as [-> ->]. simpl in Hreg, Hflag.
    rewrite Hreg, Hflag, orb_assoc. split; [|done]. by destruct op.
Qed.

(** X1.  In a program that runs to its end, every call on the boundary
    returning, the registry at the end is the one at the start with the
    maps of the [rcl_like_wrapper_init] calls added in order, earlier
    entries winning, whatever the collaborator answered: no other
    operation touches it, and a name once registered keeps its
    descriptor. *)
Theorem registry_only_grows_by_init program w w' :
  execute_all program w = (Returns tt, w') ->
  message_types w' = registered (message_types w) program /\
  (forall name d, message_types w !! name = Some d ->
                  message_types w' !! name = Some d).
Proof.
  intros Hrun. apply execute_all_globals in Hrun as [Hreg _].
  split; [exact Hreg|].
  intros name d Hd. rewrite Hreg. by apply registered_keeps.
Qed.

(** X2.  The global stop flag is monotone: at the end of a program
    that runs to its end, every call on the boundary returning, it is set
    exactly when it was set at the start or a [SIGINT] or [SIGTERM]
    arrived; no operation of the boundary clears it or sets it. *)
Theorem stop_flag_set_only_by_signals program w w' :
  execute_all program w = (Returns tt, w') ->
  global_stop_flag w' = global_stop_flag w || existsb stops program.
Proof. intros Hrun. by apply execute_all_globals in Hrun as [_ Hflag]. Qed.

(** X3.  What [create_publisher] and [create_subscription] hand to the
    node, for every input: either nothing, or a single call on the node of
    the handle, with the descriptor registered under the type name and
    the topic prefixed by ["rt/"]. *)
Theorem create_reaches_node_with_registered_type_and_rt_topic
    node_ptr name topic qos callback w :
  (calls (create_publisher node_ptr name topic qos w).2 = calls w \/
   exists mt, message_types w !! name = Some mt /\ node_ptr <> 0 /\
     calls (create_publisher node_ptr name topic qos w).2 =
       calls w ++ [Node_create_publisher node_ptr mt (String.app "rt/" topic) qos]) /\
  (calls (create_subscription node_ptr name topic qos callback w).2 = calls w \/
   exists mt, message_types w !! name = Some mt /\ node_ptr <> 0 /\
     calls (create_subscription node_ptr name topic qos callback w).2 =
       calls w ++ [Node_create_subscription node_ptr mt (String.app "rt/" topic) qos callback]).
Proof.
  split.
  - unfold create_publisher. destruct (node_ptr =? 0) eqn:Hz; [by left|].
    apply Z.eqb_neq in Hz.
    destruct (message_types w !! name) as [mt|] eqn:Hname; [|by left].
    right. exists mt. split; [done|]. split; [done|].
    rewrite null_test_is_identity, member_call_nonzero by done. done.
  - unfold create_subscription. destruct (node_ptr =? 0) eqn:Hz; [by left|].
    apply Z.eqb_neq in Hz.
    destruct (message_types w !! name) as [mt|] eqn:Hname; [|by left].
    right. exists mt. split; [done|]. split; [done|].
    rewrite null_test_is_identity, member_call_nonzero by done. done.
Qed.


(** X4.  An [RCLWNode] that has been constructed holds a handle that is
    not zero: its constructor allocated exactly one [Node], wrote nothing
    (the branch printing "Failed to create a node" is never taken), and
    [get_node_pointer] answers that handle.  When installing a signal
    handler fails, the constructor throws before anything is allocated. *)
Theorem RCLWNode_constructed_has_node (std_signal_fails : Z -> bool) domain_number w :
  (forall n w1,
      RCLWNode_new std_signal_fails domain_number w = (Returns n, w1) ->
      node_ptr_ n <> 0 /\ rclw_node_stop_flag_ n = false /\
      get_node_pointer n = node_ptr_ n /\
      cerr w1 = cerr w /\ calls w1 = calls w ++ [New_Node domain_number]) /\
  (std_signal_fails SIGINT || std_signal_fails SIGTERM = true ->
   RCLWNode_new std_signal_fails domain_number w =
     (Throws (std_exception "Failed to set signal handler."), w)).
Proof.
  unfold RCLWNode_new, register_signal_handler, bind at 1.
  split.
  - destruct (std_signal_fails SIGINT || std_signal_fails SIGTERM); [done|].
    unfold create_node, bind, new_Node_expression, ret, cerr_endl.
    destruct (new_Node domain_number (dds w)) as [[a| |] d]; simpl; [|done..].
    intros n w1 [= <- <-]. simpl. done.
  - by intros ->.
Qed.

(** X5.  The destructor of [RCLWNode] never hands the zero handle to
    [destroy_node]: on an object without a node it does nothing, and its
    outcome is undefined only if [Node::destroy] itself is.  Otherwise it
    makes the one call [Node::destroy] on the node it holds and leaves the
    handle zero, so that running the body again does nothing. *)
Theorem RCLWNode_destructor_guards_destroy_node (n : RCLWNode) w :
  (node_ptr_ n = 0 -> RCLWNode_delete n w = (Returns n, w)) /\
  ((RCLWNode_delete n w).1 = Undefined ->
   node_ptr_ n <> 0 /\ (method (Node_destroy (node_ptr_ n)) (dds w)).1 = Undefined) /\
  (forall n' w',
      RCLWNode_delete n w = (Returns n', w') ->
      node_ptr_ n' = 0 /\
      RCLWNode_delete n' w' = (Returns n', w') /\
      calls w' = calls w ++ (if node_ptr_ n =? 0 then [] else [Node_destroy (node_ptr_ n)])).
Proof.
  unfold RCLWNode_delete. destruct (node_ptr_ n =? 0) eqn:Hz; simpl.
  - apply Z.eqb_eq in Hz. split; [done|]. split; [done|].
    intros n' w' [= <- <-]. rewrite Hz. simpl. by rewrite app_nil_r.
  - apply Z.eqb_neq in Hz. split; [done|].
    unfold destroy_node, bind, ret. rewrite member_call_nonzero by done.
    destruct (method (Node_destroy (node_ptr_ n)) (dds w)) as [[a| |] d]; simpl;
      split; try done.
    intros n' w' [= <- <-]. simpl. done.
Qed.

End ProcessFacts.

(** * More facts about the executor *)

Section ExecutorUse.
Import Process.
Context {T : Type} `{!Collaborator T}.

Implicit Types (w : world T) (e : Executor) (nodes : list Z).

Lemma member_call_cerr object c w r w' :
  member_call object c w = (r, w') -> cerr w' = cerr w.
Proof.
  unfold member_call. destruct (object =? 0); [by intros [= _ <-]|].
  destruct (method c (dds w)). by intros [= _ <-].
Qed.

Lemma spin_each_returns nodes w w' :
  spin_each nodes w = (Returns tt, w') ->
  calls w' = calls w ++ map Node_spin_some (nonzero nodes).
Proof.
  revert w. induction nodes as [|p nodes IH]; intros w; simpl.
  - intros [= <-]. by rewrite app_nil_r.
  - unfold bind at 1.
    destruct ((if p =? 0 then cerr_endl "node pointer is invalid!" else spin_some p) w)
      as [r1 w1] eqn:Hturn.
    apply (turn_calls spin_some Node_spin_some) in Hturn as [Hret _]; [|done].
    destruct r1 as [[]| |]; [|done..].
    intros Hrest. rewrite (IH _ Hrest), (Hret eq_refl).
    unfold nonzero; simpl. destruct (p =? 0); simpl.
    + by rewrite app_nil_r.
    + by rewrite <- app_assoc.
Qed.

Lemma guarded_call_is_silent (p : Z) c w :
  p <> 0 ->
  cerr (bind (member_call p c) (fun _ => ret tt) w).2 = cerr w.
Proof.
  intros Hp. unfold bind, ret.
  destruct (member_call p c w) as [[a| |] w1] eqn:Hcall;
    by apply member_call_cerr in Hcall.
Qed.

(** Neither loop writes anything when the list has no null entry. *)
Lemma spin_each_is_silent nodes w :
  0 ∉ nodes -> cerr (spin_each nodes w).2 = cerr w.
Proof.
  revert w. induction nodes as [|p nodes IH]; intros w Hnull; [done|].
  apply not_elem_of_cons in Hnull as [Hp Hnull].
  assert (Hz : (p =? 0) = false) by (apply Z.eqb_neq; congruence).
  simpl. rewrite Hz. unfold bind at 1, spin_some. rewrite Hz.
  pose proof (guarded_call_is_silent p (Node_spin_some p) w) as Hturn.
  destruct (bind (member_call p (Node_spin_some p)) (fun _ => ret tt) w) as [[[]| |] w1];
    simpl in *; rewrite <- Hturn by congruence; [by apply IH|done..].
Qed.

Lemma stop_each_is_silent nodes w :
  0 ∉ nodes -> cerr (stop_each nodes w).2 = cerr w.
Proof.
  revert w. induction nodes as [|p nodes IH]; intros w Hnull; [done|].
  apply not_elem_of_cons in Hnull as [Hp Hnull].
  assert (Hz : (p =? 0) = false) by (apply Z.eqb_neq; congruence).
  simpl. rewrite Hz. unfold bind at 1, stop_spin. rewrite Hz.
  pose proof (guarded_call_is_silent p (Node_stop_spin p) w) as Hturn.
  destruct (bind (member_call p (Node_stop_spin p)) (fun _ => ret tt) w) as [[[]| |] w1];
    simpl in *; rewrite <- Hturn by congruence; [by apply IH|done..].
Qed.

Lemma perform_keeps_nodes_valid (a : action) e w :
  0 ∉ nodes_ e ->
  (0 ∉ nodes_ (perform a e w).2.1) /\
  exists lines,
    cerr (perform a e w).2.2 = cerr w ++ lines /\
    Forall (fun line => line = add_node_line) lines.
Proof.
  intros Hnull. destruct a as [| |q|q|]; simpl.
  - split; [done|]. exists []. by rewrite app_nil_r.
  - unfold Executor_spin_cycle. destruct (running_ e && negb (global_stop_flag w)).
    + destruct (spin_each (nodes_ e) w) as [r w1] eqn:Hrun. simpl. split; [done|].
      exists []. rewrite app_nil_r. split; [|done].
      pose proof (spin_each_is_silent (nodes_ e) w Hnull) as Hsilent.
      by rewrite Hrun in Hsilent.
    + split; [done|]. exists []. by rewrite app_nil_r.
  - unfold Executor_add_node. destruct (q =? 0) eqn:Hq; simpl.
    + split; [done|]. exists [add_node_line]. split; [done|]. by repeat constructor.
    + apply Z.eqb_neq in Hq. split.
      * apply not_elem_of_app. split; [done|]. rewrite list_elem_of_singleton. congruence.
      * exists []. by rewrite app_nil_r.
  - split.
    + rewrite list_elem_of_In, filter_In. intros [Hin _].
      by apply Hnull, list_elem_of_In.
    + exists []. by rewrite app_nil_r.
  - unfold Executor_stop. destruct (running_ e).
    + destruct (stop_each (nodes_ e) w) as [r w1] eqn:Hrun. simpl. split; [done|].
      exists []. rewrite app_nil_r. split; [|done].
      pose proof (stop_each_is_silent (nodes_ e) w Hnull) as Hsilent.
      by rewrite Hrun in Hsilent.
    + split; [done|]. exists []. by rewrite app_nil_r.
Qed.

(** X6.  An executor never holds a null entry: starting from a new
    executor, whatever the threads sharing it do and however that ends,
    the node list has no zero in it.  The loops of [spin] and [stop]
    therefore never print "node pointer is invalid!": all the executor has
    written is the line of [add_node] refusing a null pointer. *)
Theorem executor_holds_no_null_node (schedule : list action) w :
  (0 ∉ nodes_ (run schedule Executor_new w).2.1) /\
  exists lines,
    cerr (run schedule Executor_new w).2.2 = cerr w ++ lines /\
    Forall (fun line => line = add_node_line) lines.
Proof.
  assert (Hgen : forall schedule e w,
             0 ∉ nodes_ e ->
             (0 ∉ nodes_ (run schedule e w).2.1) /\
             exists lines,
               cerr (run schedule e w).2.2 = cerr w ++ lines /\
               Forall (fun line => line = add_node_line) lines).
  { clear. intros schedule.
    induction schedule as [|a schedule IH]; intros e w Hnull; simpl.
    - split; [done|]. exists []. by rewrite app_nil_r.
    - destruct (perform_keeps_nodes_valid a e w Hnull) as [Hnull1 (lines1 & Hc1 & Hl1)].
      destruct (perform a e w) as [r1 [e1 w1]] eqn:Hone. simpl in *.
      destruct r1 as [[]| |]; simpl; [|by eauto..].
      destruct (IH e1 w1 Hnull1) as [Hnull2 (lines2 & Hc2 & Hl2)].
      split; [done|]. exists (lines1 ++ lines2).
      rewrite Hc2, Hc1, app_assoc. split; [done|]. by apply Forall_app. }
  apply Hgen. simpl. apply not_elem_of_nil.
Qed.


Lemma run_app (first second : list action) e w :
  run (first ++ second) e w =
    match run first e w with
    | (Returns _, (e1, w1)) => run second e1 w1
    | other => other
    end.
Proof.
  revert e w. induction first as [|a first IH]; intros e w; simpl; [done|].
  destruct (perform a e w) as [[[]| |] [e1 w1]]; [apply IH|done..].
Qed.

Lemma run_add_nodes (pointers : list Z) e w :
  exists w1,
    run (add_nodes pointers) e w =
      (Returns tt, ({| running_ := running_ e; nodes_ := nodes_ e ++ nonzero pointers |}, w1)) /\
    calls w1 = calls w /\ global_stop_flag w1 = global_stop_flag w /\ dds w1 = dds w.
Proof.
  revert e w. induction pointers as [|p pointers IH]; intros e w; simpl.
  - exists w. rewrite app_nil_r. by destruct e.
  - unfold Executor_add_node, nonzero. simpl. destruct (p =? 0); simpl.
    + destruct (IH e (set_cerr (fun l => l ++ [add_node_line]) w)) as (w1 & Hrun & Hrest).
      exists w1. split; [exact Hrun|exact Hrest].
    + destruct (IH {| running_ := running_ e; nodes_ := nodes_ e ++ [p] |} w)
        as (w1 & Hrun & Hrest).
      exists w1. simpl in Hrun. rewrite <- app_assoc in Hrun. done.
Qed.

(** X7.  Nodes are spun in the order they were added, once per
    registration: after the pointers have been handed to [add_node] and
    [spin] has been entered, a cycle that returns has called [spin_some]
    on each non-null pointer, duplicates included, in that order, and on
    nothing at all if the global stop flag is set. *)
Theorem nodes_are_spun_in_the_order_added (pointers : list Z) w e' w' :
  run (add_nodes pointers ++ [Enter_spin; Spin_cycle]) Executor_new w = (Returns tt, (e', w')) ->
  nodes_ e' = nonzero pointers /\
  running_ e' = true /\
  calls w' = calls w ++
    (if global_stop_flag w then [] else map Node_spin_some (nonzero pointers)).
Proof.
  rewrite run_app.
  destruct (run_add_nodes pointers Executor_new w) as (w1 & -> & Hcalls & Hflag & _).
  simpl. unfold Executor_spin_cycle. simpl. rewrite Hflag.
  destruct (global_stop_flag w); simpl.
  - intros [= <- <-]. by rewrite app_nil_r.
  - destruct (spin_each (nonzero pointers) w1) as [[[]| |] w2] eqn:Hpass; [|done..].
    intros [= <- <-]. apply spin_each_returns in Hpass.
    rewrite Hpass, Hcalls.
    assert (Hidem : nonzero (nonzero pointers) = nonzero pointers).
    { unfold nonzero. clear. induction pointers as [|p pointers IH]; [done|].
      simpl. destruct (p =? 0) eqn:Hp; simpl; [done|]. by rewrite Hp, IH. }
    by rewrite Hidem.
Qed.

(** X8.  Removing a node that is not registered changes nothing, and
    adding a node that was not registered and removing it again gives back
    the executor as it was. *)
Theorem remove_node_undoes_add_node (p : Z) e w :
  p ∉ nodes_ e ->
  Executor_remove_node p e w = (Returns tt, (e, w)) /\
  (p <> 0 -> run [Add_node p; Remove_node p] e w = (Returns tt, (e, w))).
Proof.
  intros Hp.
  assert (Hsame : List.filter (fun q => negb (q =? p)) (nodes_ e) = nodes_ e).
  { apply forallb_filter_id, forallb_forall. intros q Hq.
    apply negb_true_iff, Z.eqb_neq. intros ->.
    by apply Hp, list_elem_of_In. }
  split.
  - unfold Executor_remove_node. rewrite Hsame. by destruct e.
  - intros Hnz. simpl. unfold Executor_add_node, Executor_remove_node.
    apply Z.eqb_neq in Hnz. rewrite Hnz. simpl.
    rewrite List.filter_app, Hsame. simpl. rewrite Z.eqb_refl. simpl.
    rewrite app_nil_r. by destruct e.
Qed.

(** X9.  Once [SIGINT] or [SIGTERM] has been handled, [Executor::spin]
    returns at its first test, without a call on any node, and leaves the
    running flag set; a cycle of a loop already running does nothing
    either. *)
Theorem executor_spin_returns_after_signal (signal : Z) (fuel : nat) e w :
  stops (Signal signal) = true ->
  Executor_spin fuel e (signal_handler signal w) =
    Some (Returns tt, ({| running_ := true; nodes_ := nodes_ e |}, signal_handler signal w)) /\
  Executor_spin_cycle e (signal_handler signal w) = (Returns tt, (e, signal_handler signal w)) /\
  calls (signal_handler signal w) = calls w.
Proof.
  simpl. intros Hstops. unfold Executor_spin, Executor_spin_cycle, signal_handler.
  rewrite Hstops. simpl. rewrite andb_false_r.
  split; [by destruct fuel|done].
Qed.


(** X18.  Once [spin] has been entered, a [stop] that returns has asked
    every node that was added, in the order added, to stop spinning, and
    has ended the loop: the flag is false, a further cycle calls nothing,
    and the loop of [spin], taken up again at its test, returns at once. *)
Theorem stop_reaches_every_added_node (pointers : list Z) w e' w' :
  run (add_nodes pointers ++ [Enter_spin; Stop; Spin_cycle]) Executor_new w
    = (Returns tt, (e', w')) ->
  running_ e' = false /\
  nodes_ e' = nonzero pointers /\
  calls w' = calls w ++ map Node_stop_spin (nonzero pointers) /\
  (forall fuel, spin_while fuel e' w' = Some (Returns tt, (e', w'))).
Proof.
  rewrite run_app.
  destruct (run_add_nodes pointers Executor_new w) as (w1 & -> & Hcalls & Hflag & _).
  simpl. unfold Executor_stop. simpl.
  destruct (stop_each (nonzero pointers) w1) as [[[]| |] w2] eqn:Hstop; [|done..].
  unfold Executor_spin_cycle. simpl. intros [= <- <-]. simpl.
  apply stop_each_calls in Hstop as [Hret _]. rewrite (Hret eq_refl), Hcalls.
  assert (Hidem : nonzero (nonzero pointers) = nonzero pointers).
  { unfold nonzero. clear. induction pointers as [|p pointers IH]; [done|].
    simpl. destruct (p =? 0) eqn:Hp; simpl; [done|]. by rewrite Hp, IH. }
  rewrite Hidem. repeat split; try done. by intros [|fuel].
Qed.

End ExecutorUse.

(** * Facts about loops paced by a Rate *)

Section PacingFacts.
Import Pacing.

Implicit Types (r : Rate) (readings : list Z).

Lemma sleep_each_bounded readings :
  forall r from,
    0 < period_ticks r ->
    int64_min <= next_time_ r ->
    steady from readings ->
    Forall (fun now => now + period_ticks r <= int64_max) readings ->
    next_time_ r <= from + period_ticks r ->
    exists fuel targets r',
      (forall fuel', (fuel <= fuel')%nat -> sleep_each fuel' readings r = Some (targets, r')) /\
      Forall2 (fun now t => now < t <= now + period_ticks r) readings targets.
Proof.
  induction readings as [|now readings IH]; intros r from HP Hmin Hsteady Hfit Hnext.
  - exists O, [], r. split; [done|constructor].
  - destruct Hsteady as [Hfrom Hsteady].
    apply Forall_cons in Hfit as [Hfit1 Hfit].
    destruct (Rate_sleep_returns now r HP Hmin Hfit1)
      as (fuel1 & r1 & t & Hrun & Ht & Hper & Hlt & Hsame & Hlate).
    assert (Hticks : period_ticks r1 = period_ticks r)
      by (unfold period_ticks; by rewrite Hper).
    assert (Hbound : next_time_ r <= t <= now + period_ticks r).
    { destruct (Z.lt_ge_cases now (next_time_ r)) as [Hbefore|Hbehind].
      - rewrite (Hsame Hbefore) in Ht. lia.
      - destruct (Hlate Hbehind) as (k & Hk1 & Hk & Hleast). nia. }
    destruct (IH r1 now) as (fuel2 & targets & r' & Hrest & Hall).
    { lia. } { lia. } { done. } { by rewrite Hticks. } { rewrite Hticks. lia. }
    exists (Nat.max fuel1 fuel2), (t :: targets), r'. split.
    + intros fuel' Hfuel. simpl.
      rewrite (Hrun fuel') by lia. by rewrite (Hrest fuel') by lia.
    + constructor; [lia|]. by rewrite Hticks in Hall.
Qed.

(** X10.  With a positive period and a clock that never goes back, a
    loop calling [sleep] never waits longer than one period, as long as
    the period in nanoseconds, the construction time plus one period and
    every reading plus one period fit the 64 bits of the clock: every call
    returns, and the instant it waits for is after the reading it took and
    at most one period after it, however late the caller was. *)
Theorem sleep_waits_at_most_one_period (t0 P : Z) readings :
  0 < P ->
  representable (P * ticks_per_millisecond) ->
  representable (t0 + P * ticks_per_millisecond) ->
  steady t0 readings ->
  Forall (fun now => representable (now + P * ticks_per_millisecond)) readings ->
  exists fuel targets r',
    (forall fuel', (fuel <= fuel')%nat ->
       sleep_each fuel' readings (Rate_new t0 P) = Some (targets, r')) /\
    Forall2 (fun now t => now < t <= now + P * ticks_per_millisecond) readings targets.
Proof.
  intros HP HrepP Hrep0 Hsteady Hfit.
  assert (Hticks : period_ticks (Rate_new t0 P) = P * ticks_per_millisecond)
    by (by apply period_ticks_representable).
  assert (Hnext : next_time_ (Rate_new t0 P) = t0 + P * ticks_per_millisecond).
  { simpl. by rewrite (wrap64_representable _ HrepP), (wrap64_representable _ Hrep0). }
  rewrite <- Hticks.
  apply (sleep_each_bounded readings (Rate_new t0 P) t0).
  - rewrite Hticks. unfold ticks_per_millisecond. lia.
  - rewrite Hnext. apply Hrep0.
  - done.
  - rewrite Hticks. eapply Forall_impl; [exact Hfit|]. intros now Hnow. apply Hnow.
  - rewrite Hnext, Hticks. lia.
Qed.

Lemma sleep_each_behind readings fuel :
  (1 <= fuel)%nat ->
  forall r,
    0 < period_ticks r ->
    int64_min <= next_time_ r ->
    on_schedule (next_time_ r) (period_ticks r) readings ->
    Forall (fun now => now + period_ticks r <= int64_max) readings ->
    exists r',
      sleep_each fuel readings r =
        Some (grid (next_time_ r) (period_ticks r) (length readings), r').
Proof.
  intros Hfuel. induction readings as [|now readings IH]; intros r Hq Hmin Hon Hfit; simpl.
  - by exists r.
  - destruct Hon as [Hnow Hon]. apply Forall_cons in Hfit as [Hfit1 Hfit].
    unfold Rate_sleep.
    assert (Hlt : (now <? next_time_ r) = false) by (apply Z.ltb_ge; lia).
    rewrite Hlt, (catch_up_enough 1 now r) by (simpl; lia).
    replace (next_time_ r + Z.of_nat 1 * period_ticks r)
      with (next_time_ r + period_ticks r) by lia.
    set (r1 := {| period_ := period_ r; next_time_ := next_time_ r + period_ticks r |}).
    assert (Hticks : period_ticks r1 = period_ticks r) by reflexivity.
    destruct (IH r1) as (r' & Hrest).
    { by rewrite Hticks. } { simpl. lia. } { by rewrite Hticks. } { by rewrite Hticks. }
    rewrite Hticks in Hrest. simpl in Hrest. rewrite Hrest. by exists r'.
Qed.

(** X11.  A loop whose turns take less than a period keeps exact time,
    as long as the period in nanoseconds, the construction time plus one
    period and every reading plus one period fit the 64 bits of the
    clock: when the first call to [sleep] is made within the first period
    after construction, the second within the second, and so on, the
    instants waited for are the construction time plus one, two, three
    periods, with no drift. *)
Theorem sleep_on_schedule_ticks_every_period (t0 P : Z) readings (fuel : nat) :
  0 < P ->
  representable (P * ticks_per_millisecond) ->
  representable (t0 + P * ticks_per_millisecond) ->
  (1 <= fuel)%nat ->
  on_schedule t0 (P * ticks_per_millisecond) readings ->
  Forall (fun now => representable (now + P * ticks_per_millisecond)) readings ->
  exists r',
    sleep_each fuel readings (Rate_new t0 P) =
      Some (grid t0 (P * ticks_per_millisecond) (length readings), r').
Proof.
  intros HP HrepP Hrep0 Hfuel Hon Hfit.
  assert (Hticks : period_ticks (Rate_new t0 P) = P * ticks_per_millisecond)
    by (by apply period_ticks_representable).
  assert (Hnext : next_time_ (Rate_new t0 P) = t0 + P * ticks_per_millisecond).
  { simpl. by rewrite (wrap64_representable _ HrepP), (wrap64_representable _ Hrep0). }
  destruct readings as [|now readings].
  - by eexists.
  - destruct Hon as [Hnow Hon]. apply Forall_cons in Hfit as [Hfit1 Hfit].
    cbn [sleep_each length grid]. unfold Rate_sleep. rewrite Hnext.
    assert (Hlt : (now <? t0 + P * ticks_per_millisecond) = true) by (apply Z.ltb_lt; lia).
    rewrite Hlt.
    destruct (sleep_each_behind readings fuel Hfuel (Rate_new t0 P)) as (r' & Hrest).
    { rewrite Hticks. unfold ticks_per_millisecond. lia. }
    { rewrite Hnext. apply Hrep0. }
    { by rewrite Hnext, Hticks. }
    { rewrite Hticks. eapply Forall_impl; [exact Hfit|]. intros x Hx. apply Hx. }
    rewrite Hrest, Hnext, Hticks. by exists r'.
Qed.

End PacingFacts.

(** A steady clock read at 3, 12 and 40 milliseconds by a loop paced at
    ten milliseconds. *)
Lemma sleep_waits_at_most_one_period_witness :
  exists fuel targets r',
    (forall fuel', (fuel <= fuel')%nat ->
       Pacing.sleep_each fuel' [3000000; 12000000; 40000000] (Rate_new 0 10) =
         Some (targets, r')) /\
    Forall2 (fun now t => now < t <= now + 10 * ticks_per_millisecond)
            [3000000; 12000000; 40000000] targets.
Proof.
  apply (sleep_waits_at_most_one_period 0 10 [3000000; 12000000; 40000000]).
  - lia.
  - vm_compute. split; discriminate.
  - vm_compute. split; discriminate.
  - simpl. lia.
  - repeat constructor; vm_compute; discriminate.
Defined.

(** A loop paced at ten milliseconds whose turns take three to five. *)
Lemma sleep_on_schedule_witness :
  exists r',
    Pacing.sleep_each 1 [3000000; 15000000; 24000000] (Rate_new 0 10) =
      Some (Pacing.grid 0 (10 * ticks_per_millisecond) 3, r').
Proof.
  apply (sleep_on_schedule_ticks_every_period 0 10 [3000000; 15000000; 24000000] 1).
  - lia.
  - vm_compute. split; discriminate.
  - vm_compute. split; discriminate.
  - lia.
  - unfold ticks_per_millisecond. simpl. lia.
  - repeat constructor; vm_compute; discriminate.
Defined.

(** * More facts about subscriptions *)

Section ListenerFacts.
Import Lwrcl Listener.
Context {T U : Type} (f : callback (T:=T) (U:=U)).

Implicit Types (s : state T U) (d : list T) (pending : list ChannelCallback).

Local Open Scope nat_scope.

Lemma caught_line_is_not_the_empty_line (e : exn) :
  caught_line e <> "Error: Vector is empty"%string.
Proof. destruct e; discriminate. Qed.

(** Running the closure that has just been taken from the queue. *)
Lemma invoke_keeps_consistent d c (queue : list ChannelCallback) s :
  channel_ s = c :: queue ->
  consistent d s ->
  exists s',
    invoke f (State (cerr s) (message_ptr_buffer_ s) (count s) queue (user s) (invocations s))
      = (Returns tt, s') /\
    consistent d s' /\ channel_ s' = queue /\ count s' = count s.
Proof.
  intros Hqueue (Hbound & (consumed & Hd) & Hseen & Hsum & Hline).
  rewrite Hqueue in Hbound. rewrite invoke_cases. simpl.
  destruct (message_ptr_buffer_ s) as [|front rest] eqn:Hbuffer; [simpl in Hbound; lia|].
  simpl in Hbound.
  assert (Hfront : front ∈ d).
  { rewrite <- Hd. apply elem_of_app. right. apply elem_of_cons. by left. }
  eexists. split; [reflexivity|].
  destruct (f front (user s)).1 as [|e]; simpl; (split; [|done]); unfold consistent; simpl.
  - split; [lia|]. split.
    { exists (consumed ++ [front]). by rewrite <- app_assoc. }
    split.
    { intros m [Hm|Hm]%elem_of_app; [by apply Hseen|].
      apply list_elem_of_singleton in Hm. by subst m. }
    split; [|done]. rewrite length_app. simpl in *. lia.
  - split; [lia|]. split; [by exists consumed|]. split.
    { intros m [Hm|Hm]%elem_of_app; [by apply Hseen|].
      apply list_elem_of_singleton in Hm. by subst m. }
    split.
    { rewrite !length_app. simpl in *. lia. }
    apply not_elem_of_app. split; [done|].
    rewrite list_elem_of_singleton. intros Heq. symmetry in Heq.
    by apply caught_line_is_not_the_empty_line in Heq.
Qed.

Lemma drain_keeps_consistent d pending :
  forall rest s,
    channel_ s = pending ++ rest ->
    consistent d s ->
    exists n s',
      drain f pending s = (Returns n, s') /\
      consistent d s' /\ channel_ s' = rest /\ count s' = count s.
Proof.
  induction pending as [|c pending IH]; intros rest s Hqueue Hs; simpl.
  - by exists O, s.
  - destruct (invoke_keeps_consistent d c (pending ++ rest) s Hqueue Hs)
      as (s1 & Hrun & Hs1 & Hq1 & Hc1).
    destruct (IH rest s1 Hq1 Hs1) as (n & s' & Hdrain & Hs' & Hq' & Hc').
    exists (S n), s'. unfold bind at 1. unfold pop_front at 1. unfold bind at 1.
    destruct c. unfold run_closure. rewrite Hqueue. simpl.
    rewrite Hrun. unfold bind, ret. rewrite Hdrain.
    split; [done|]. split; [done|]. split; [done|]. congruence.
Qed.

Lemma step_keeps_consistent d (ev : event T) s :
  consistent d s ->
  exists s',
    step f ev s = (Returns tt, s') /\
    consistent (d ++ delivered [ev]) s' /\ count s' = count s.
Proof.
  intros Hs. destruct ev as [a| |]; simpl.
  - unfold on_data_available.
    destruct ((retcode a =? RETCODE_OK)%Z && valid_data a).
    + destruct Hs as (Hbound & (consumed & Hd) & Hseen & Hsum & Hline).
      eexists. split; [reflexivity|]. split; [|done]. unfold consistent; simpl.
      rewrite !length_app. simpl. split; [lia|]. split.
      { exists consumed. by rewrite app_assoc, Hd. }
      split.
      { intros m Hm. apply elem_of_app. left. by apply Hseen. }
      split; [lia|done].
    + exists s. by rewrite app_nil_r.
  - rewrite app_nil_r. unfold consume_one.
    destruct (channel_ s) as [|c queue] eqn:Hqueue.
    + by exists s.
    + destruct (invoke_keeps_consistent d c queue s Hqueue Hs) as (s' & Hrun & Hs' & _ & Hc).
      exists s'. unfold bind, pop_front. destruct c. unfold run_closure.
      rewrite Hqueue. simpl. by rewrite Hrun.
  - rewrite app_nil_r.
    destruct (drain_keeps_consistent d (channel_ s) [] s) as (n & s' & Hrun & Hs' & _ & Hc);
      [by rewrite app_nil_r | done |].
    exists s'. unfold bind, drain_available, ret. by rewrite Hrun.
Qed.

Lemma run_keeps_consistent (history : list (event T)) :
  forall d s,
    consistent d s ->
    exists s',
      run f history s = (Returns tt, s') /\
      consistent (d ++ delivered history) s' /\ count s' = count s.
Proof.
  induction history as [|ev history IH]; intros d s Hs.
  - exists s. simpl. by rewrite app_nil_r.
  - destruct (step_keeps_consistent d ev s Hs) as (s1 & Hstep & Hs1 & Hc1).
    destruct (IH _ s1 Hs1) as (s' & Hrun & Hs' & Hc').
    exists s'. split; [simpl; unfold bind; by rewrite Hstep|].
    rewrite (delivered_cons ev history), app_assoc. split; [done|congruence].
Qed.

(** X12.  Whatever the user callback does, raising included, a listener
    stays consistent through any history of deliveries and spins: there
    are never more pending closures than buffered messages, so the branch
    of [invoke] for an empty buffer is never taken and its line never
    written; the buffer is a tail of the delivered messages (none is
    removed before the callback has returned from it); the callback is
    only ever called with a delivered message; and every call of the
    callback has either removed one message or written one line. *)
Theorem listener_stays_consistent (u : U) (history : list (event T)) :
  exists s,
    run f history (initial u) = (Returns tt, s) /\
    length (channel_ s) <= length (message_ptr_buffer_ s) /\
    (exists consumed, consumed ++ message_ptr_buffer_ s = delivered history) /\
    (forall m, m ∈ invocations s -> m ∈ delivered history) /\
    length (invocations s) + length (message_ptr_buffer_ s) =
      length (delivered history) + length (cerr s) /\
    "Error: Vector is empty"%string ∉ cerr s.
Proof.
  destruct (run_keeps_consistent history [] (initial u)) as (s & Hrun & Hs & _).
  - unfold consistent, initial; simpl. split; [lia|]. split; [by exists []|].
    split; [by intros m Hm%elem_of_nil|]. split; [lia|]. apply not_elem_of_nil.
  - exists s. split; [exact Hrun|]. exact Hs.
Qed.


Lemma notify_all_count (history : list notification) :
  forall d s,
    consistent d s ->
    exists s',
      notify_all f history s = (Returns tt, s') /\
      count s' = last_count (count s) history.
Proof.
  induction history as [|n history IH]; intros d s Hs; simpl.
  - by exists s.
  - destruct n as [current_count|ev]; simpl.
    + unfold bind, on_subscription_matched.
      match goal with |- context [notify_all f history ?s1] => set (s1' := s1) end.
      destruct (IH d s1') as (s' & Hrun & Hcount); [exact Hs|].
      exists s'. by rewrite Hrun.
    + destruct (step_keeps_consistent d ev s Hs) as (s1 & Hstep & Hs1 & Hc1).
      destruct (IH _ s1 Hs1) as (s' & Hrun & Hcount).
      exists s'. unfold bind. rewrite Hstep, Hrun. split; [done|]. by rewrite Hcount, Hc1.
Qed.

(** X13.  [get_publisher_count] answers the count of the latest match
    notification, zero before the first: deliveries, spins and callbacks,
    raising or not, never change it. *)
Theorem publisher_count_is_the_last_matched (u : U) (history : list notification) :
  exists s,
    notify_all f history (initial u) = (Returns tt, s) /\
    get_publisher_count s = (Returns (last_count 0%Z history), s).
Proof.
  destruct (notify_all_count history [] (initial u)) as (s & Hrun & Hcount).
  - unfold consistent, initial; simpl. split; [lia|]. split; [by exists []|].
    split; [by intros m Hm%elem_of_nil|]. split; [lia|]. apply not_elem_of_nil.
  - exists s. split; [exact Hrun|]. unfold get_publisher_count. by rewrite Hcount.
Qed.

Lemma drain_keeps_stuck d pending :
  (forall m u, exists e, (f m u).1 = Raised e) ->
  forall s,
    stuck d s ->
    exists n s', drain f pending s = (Returns n, s') /\ stuck d s'.
Proof.
  intros Hf. induction pending as [|c pending IH]; intros s Hs; simpl.
  - by exists O, s.
  - unfold bind at 1. unfold pop_front at 1. unfold bind at 1.
    destruct c. unfold run_closure. rewrite invoke_cases. simpl.
    match goal with |- context [bind (drain f pending) _ ?s1] => set (s1' := s1) end.
    destruct (IH s1') as (n & s' & Hrun & Hs').
    { subst s1'. destruct Hs as [Hbuffer Hseen]. rewrite Hbuffer.
      destruct d as [|front rest]; [done|].
      destruct (Hf front (user s)) as [e ->]. split; [done|]. simpl.
      intros m [Hm|Hm]%elem_of_app; [by apply Hseen|].
      apply list_elem_of_singleton in Hm. by subst m. }
    exists (S n), s'. unfold bind, ret. by rewrite Hrun.
Qed.

Lemma run_keeps_stuck (history : list (event T)) :
  (forall m u, exists e, (f m u).1 = Raised e) ->
  forall d s,
    stuck d s ->
    exists s', run f history s = (Returns tt, s') /\ stuck (d ++ delivered history) s'.
Proof.
  intros Hf. induction history as [|ev history IH]; intros d s Hs.
  - exists s. simpl. by rewrite app_nil_r.
  - assert (Hstep : exists s1, step f ev s = (Returns tt, s1) /\ stuck (d ++ delivered [ev]) s1).
    { destruct ev as [a| |]; simpl.
      - unfold on_data_available.
        destruct ((retcode a =? RETCODE_OK)%Z && valid_data a).
        + eexists. split; [reflexivity|]. destruct Hs as [Hbuffer Hseen].
          split; [simpl; by rewrite Hbuffer|]. simpl.
          intros m Hm. apply Hseen in Hm. by destruct d.
        + exists s. by rewrite app_nil_r.
      - rewrite app_nil_r. unfold consume_one.
        destruct (channel_ s) as [|c queue] eqn:Hqueue; [by exists s|].
        destruct (drain_keeps_stuck d [c] Hf s Hs) as (n & s1 & Hrun & Hs1).
        exists s1. split; [|done]. revert Hrun. simpl. unfold bind, ret.
        destruct (pop_front s) as [[[]| |] s0]; try done.
        destruct (run_closure f c s0) as [[[]| |] s2]; try done.
        by intros [= _ <-].
      - rewrite app_nil_r.
        destruct (drain_keeps_stuck d (channel_ s) Hf s Hs) as (n & s1 & Hrun & Hs1).
        exists s1. unfold bind, drain_available, ret. by rewrite Hrun. }
    destruct Hstep as (s1 & Hstep & Hs1).
    destruct (IH _ s1 Hs1) as (s' & Hrun & Hs').
    exists s'. split; [simpl; unfold bind; by rewrite Hstep|].
    by rewrite (delivered_cons ev history), app_assoc.
Qed.

(** X14.  A callback that raises on every message blocks its
    subscription: after any history nothing has been removed from the
    buffer, which holds every delivered message in arrival order, and
    every call of the callback was made with the first message
    delivered. *)
Theorem raising_callback_blocks_the_subscription (u : U) (history : list (event T)) :
  (forall m u, exists e, (f m u).1 = Raised e) ->
  exists s,
    run f history (initial u) = (Returns tt, s) /\
    message_ptr_buffer_ s = delivered history /\
    (forall m, m ∈ invocations s -> head (delivered history) = Some m).
Proof.
  intros Hf.
  destruct (run_keeps_stuck history Hf [] (initial u)) as (s & Hrun & Hs).
  - split; [done|]. by intros m Hm%elem_of_nil.
  - exists s. split; [exact Hrun|]. exact Hs.
Qed.

End ListenerFacts.

(** * Facts about the constructor and destructor of Subscriber *)

Section SubscriberFacts.
Import Lwrcl Listener.

Implicit Types (p : participant) (topic : string).

Ltac found := apply list_elem_of_In; simpl; auto 10.

Ltac gone :=
  let Hc := fresh "Hc" in
  intros Hc%list_elem_of_In; simpl in Hc; exfalso; intuition discriminate.

Ltac absent :=
  let c := fresh "c" in
  let Hc := fresh "Hc" in
  intros c Hc%list_elem_of_In; simpl in Hc; intuition (subst; discriminate).

(** X15.  The constructor of [Subscriber] never creates a topic that
    exists: [create_topic] is called exactly when the type was registered
    and the lookup found no topic, and the object constructed refers to
    the topic found, or else to the one created. *)
Theorem Subscriber_reuses_an_existing_topic p topic :
  (create_topic topic ∈ (Subscriber_new p topic).2 <->
   register_type_answer p = RETCODE_OK /\ lookup_topicdescription_answer p = 0%Z) /\
  (forall s, (Subscriber_new p topic).1 = Returns s ->
     topic_ s = (if (lookup_topicdescription_answer p =? 0)%Z
                 then create_topic_answer p else lookup_topicdescription_answer p) /\
     lookup_topicdescription topic ∈ (Subscriber_new p topic).2).
Proof.
  unfold Subscriber_new.
  destruct (Z.eqb_spec (register_type_answer p) RETCODE_OK) as [Hreg|Hreg]; simpl.
  2: { split; [|done]. split; [|by intros [? _]].
       intros Hin. apply list_elem_of_singleton in Hin. discriminate. }
  destruct (Z.eqb_spec (lookup_topicdescription_answer p) 0) as [Hlook|Hlook]; simpl.
  - destruct (create_topic_answer p =? 0)%Z; simpl.
    { split; [|done]. split; [done|]. intros _. found. }
    destruct (create_subscriber_answer p =? 0)%Z; simpl.
    { split; [|done]. split; [done|]. intros _. found. }
    destruct (create_datareader_answer p =? 0)%Z; simpl.
    { split; [|done]. split; [done|]. intros _. found. }
    split; [split; [done|]; intros _; found|].
    intros s [= <-]. simpl. split; [done|found].
  - assert (Hnot : forall rest : list participant_call,
               (forall c, c ∈ rest -> c <> create_topic topic) ->
               create_topic topic ∈ [register_type; lookup_topicdescription topic] ++ rest <->
               register_type_answer p = RETCODE_OK /\ lookup_topicdescription_answer p = 0%Z).
    { intros rest Hrest. split; [|by intros [_ ?]].
      intros [Hin|Hin]%elem_of_app.
      - apply elem_of_cons in Hin as [?|Hin]; [discriminate|].
        apply list_elem_of_singleton in Hin. discriminate.
      - by apply Hrest in Hin. }
    destruct (create_subscriber_answer p =? 0)%Z; simpl.
    { split; [|done]. apply (Hnot [create_subscriber; delete_topic _]).
      absent. }
    destruct (create_datareader_answer p =? 0)%Z; simpl.
    { split; [|done].
      apply (Hnot [create_subscriber; create_datareader _; delete_subscriber _; delete_topic _]).
      absent. }
    split.
    + apply (Hnot [create_subscriber; create_datareader _]). absent.
    + intros s [= <-]. simpl. split; [done|found].
Qed.


(** X16.  A construction that fails leaves nothing behind, and one that
    succeeds deletes nothing.  When the constructor throws, no reader
    exists; the [dds::Subscriber], if it had been created, has been
    deleted; and if the failure came after the topic step, the last call
    deletes the topic, whether this constructor had created it or only
    found it. *)
Theorem Subscriber_failure_releases_what_was_created p topic :
  (forall s, (Subscriber_new p topic).1 = Returns s ->
     forallb (fun c => negb (is_delete c)) (Subscriber_new p topic).2 = true) /\
  (forall e, (Subscriber_new p topic).1 = Throws e ->
     (forall t, create_datareader t ∈ (Subscriber_new p topic).2 ->
                create_datareader_answer p = 0%Z) /\
     (create_subscriber ∈ (Subscriber_new p topic).2 ->
      create_subscriber_answer p <> 0%Z ->
      delete_subscriber (create_subscriber_answer p) ∈ (Subscriber_new p topic).2) /\
     (create_subscriber ∈ (Subscriber_new p topic).2 ->
      last (Subscriber_new p topic).2 =
        Some (delete_topic (if (lookup_topicdescription_answer p =? 0)%Z
                            then create_topic_answer p
                            else lookup_topicdescription_answer p)))).
Proof.
  unfold Subscriber_new.
  destruct (register_type_answer p =? RETCODE_OK)%Z; simpl.
  2: { split; [done|]. intros e _. split; [absent|]. split; gone. }
  destruct (lookup_topicdescription_answer p =? 0)%Z; simpl.
  - destruct (create_topic_answer p =? 0)%Z; simpl.
    { split; [done|]. intros e _. split; [absent|].
      split; gone. }
    destruct (Z.eqb_spec (create_subscriber_answer p) 0) as [Hsub|Hsub]; simpl.
    { split; [done|]. intros e _. split; [absent|]. split; [done|done]. }
    destruct (Z.eqb_spec (create_datareader_answer p) 0) as [Hreader|Hreader]; simpl.
    { split; [done|]. intros e _. split; [done|]. split; [|done]. intros _ _. found. }
    split; [done|]. intros e [=].
  - destruct (Z.eqb_spec (create_subscriber_answer p) 0) as [Hsub|Hsub]; simpl.
    { split; [done|]. intros e _. split; [absent|]. split; [done|done]. }
    destruct (Z.eqb_spec (create_datareader_answer p) 0) as [Hreader|Hreader]; simpl.
    { split; [done|]. intros e _. split; [done|]. split; [|done]. intros _ _. found. }
    split; [done|]. intros e [=].
Qed.

(** X17.  When every step of the construction succeeds, destroying the
    object releases what the constructor acquired, once each and in the
    order reader, subscriber, topic. *)
Theorem Subscriber_destructor_releases_in_order p topic :
  constructible p = true ->
  exists s,
    (Subscriber_new p topic).1 = Returns s /\
    subscriber_ s = create_subscriber_answer p /\
    reader_ s = create_datareader_answer p /\
    Subscriber_delete s =
      [delete_datareader (subscriber_ s) (reader_ s);
       on_participant (delete_subscriber (subscriber_ s));
       on_participant (delete_topic (topic_ s))].
Proof.
  intros Hp. pose proof (Subscriber_new_fails_by_throwing p topic) as Hnew.
  rewrite Hp in Hnew. destruct Hnew as (s & Hs & Hreader & Hsub & Htopic).
  exists s. split; [done|].
  assert (Hfields : subscriber_ s = create_subscriber_answer p /\
                    reader_ s = create_datareader_answer p).
  { revert Hs. unfold Subscriber_new. repeat case_match; simpl; try done;
      by intros [= <-]. }
  destruct Hfields as [Hf1 Hf2]. split; [done|]. split; [done|].
  unfold Subscriber_delete.
  apply Z.eqb_neq in Hreader, Hsub, Htopic. by rewrite Hreader, Hsub, Htopic.
Qed.

End SubscriberFacts.

(** Four pointers, one of them null and one twice, are added to a new
    executor, which then spins one cycle. *)
Lemma nodes_are_spun_in_the_order_added_witness :
  let outcome :=
    @run positive Simulation.handing_out
      (Process.add_nodes [4096; 0; 4112; 4096] ++ [Enter_spin; Spin_cycle])
      Executor_new (Simulation.started 8192%positive) in
  nodes_ outcome.2.1 = nonzero [4096; 0; 4112; 4096] /\
  running_ outcome.2.1 = true /\
  calls outcome.2.2 =
    calls (Simulation.started 8192%positive) ++
      (if global_stop_flag (Simulation.started 8192%positive) then []
       else map Node_spin_some (nonzero [4096; 0; 4112; 4096])).
Proof.
  apply (@nodes_are_spun_in_the_order_added positive Simulation.handing_out
           [4096; 0; 4112; 4096] (Simulation.started 8192%positive)).
  vm_compute. reflexivity.
Defined.

(** A node that is not registered is removed, and added and removed. *)
Lemma remove_node_undoes_add_node_witness :
  Executor_remove_node 4112 {| running_ := true; nodes_ := [4096] |}
    (Simulation.started 8192%positive) =
    (Returns tt, ({| running_ := true; nodes_ := [4096] |}, Simulation.started 8192%positive)) /\
  (4112 <> 0 ->
   @run positive Simulation.handing_out [Add_node 4112; Remove_node 4112]
     {| running_ := true; nodes_ := [4096] |} (Simulation.started 8192%positive) =
     (Returns tt, ({| running_ := true; nodes_ := [4096] |}, Simulation.started 8192%positive))).
Proof.
  apply (@remove_node_undoes_add_node positive Simulation.handing_out 4112
           {| running_ := true; nodes_ := [4096] |} (Simulation.started 8192%positive)).
  simpl. intros Hin%list_elem_of_In. simpl in Hin. intuition discriminate.
Defined.

(** [SIGINT] arrives; an executor holding a node is then asked to spin. *)
Lemma executor_spin_returns_after_signal_witness :
  @Executor_spin positive Simulation.handing_out 5
    {| running_ := false; nodes_ := [4096] |}
    (Process.signal_handler Process.SIGINT (Simulation.started 8192%positive)) =
    Some (Returns tt,
          ({| running_ := true; nodes_ := [4096] |},
           Process.signal_handler Process.SIGINT (Simulation.started 8192%positive))) /\
  @Executor_spin_cycle positive Simulation.handing_out
    {| running_ := false; nodes_ := [4096] |}
    (Process.signal_handler Process.SIGINT (Simulation.started 8192%positive)) =
    (Returns tt,
     ({| running_ := false; nodes_ := [4096] |},
      Process.signal_handler Process.SIGINT (Simulation.started 8192%positive))) /\
  calls (Process.signal_handler Process.SIGINT (Simulation.started 8192%positive)) =
    calls (Simulation.started 8192%positive).
Proof.
  apply (@executor_spin_returns_after_signal positive Simulation.handing_out
           Process.SIGINT 5 {| running_ := false; nodes_ := [4096] |}
           (Simulation.started 8192%positive)).
  reflexivity.
Defined.

(** Two messages reach a subscription whose callback always raises. *)
Lemma raising_callback_blocks_witness :
  exists s,
    Lwrcl.run Listener.refusing_all
      [Simulation.sample 7; Lwrcl.Spin_once; Simulation.sample 8; Lwrcl.Spin_some]
      (Lwrcl.initial O) = (Returns tt, s) /\
    Lwrcl.message_ptr_buffer_ s =
      Lwrcl.delivered [Simulation.sample 7; Lwrcl.Spin_once; Simulation.sample 8; Lwrcl.Spin_some] /\
    (forall m, m ∈ Lwrcl.invocations s ->
       head (Lwrcl.delivered [Simulation.sample 7; Lwrcl.Spin_once; Simulation.sample 8;
                              Lwrcl.Spin_some]) = Some m).
Proof.
  apply (raising_callback_blocks_the_subscription Listener.refusing_all O
           [Simulation.sample 7; Lwrcl.Spin_once; Simulation.sample 8; Lwrcl.Spin_some]).
  intros m u. exists unknown_exception. reflexivity.
Defined.

(** A participant on which every step succeeds. *)
Lemma Subscriber_destructor_witness :
  exists s,
    (Lwrcl.Subscriber_new Listener.obliging "rt/ping").1 = Returns s /\
    Lwrcl.subscriber_ s = Lwrcl.create_subscriber_answer Listener.obliging /\
    Lwrcl.reader_ s = Lwrcl.create_datareader_answer Listener.obliging /\
    Listener.Subscriber_delete s =
      [Listener.delete_datareader (Lwrcl.subscriber_ s) (Lwrcl.reader_ s);
       Listener.on_participant (Lwrcl.delete_subscriber (Lwrcl.subscriber_ s));
       Listener.on_participant (Lwrcl.delete_topic (Lwrcl.topic_ s))].
Proof.
  apply (Subscriber_destructor_releases_in_order Listener.obliging "rt/ping").
  reflexivity.
Defined.

(** Three pointers are added, [spin] is entered and [stop] is called. *)
Lemma stop_reaches_every_added_node_witness :
  let outcome :=
    @run positive Simulation.handing_out
      (Process.add_nodes [4096; 4112; 0] ++ [Enter_spin; Stop; Spin_cycle])
      Executor_new (Simulation.started 8192%positive) in
  running_ outcome.2.1 = false /\
  nodes_ outcome.2.1 = nonzero [4096; 4112; 0] /\
  calls outcome.2.2 =
    calls (Simulation.started 8192%positive) ++
      map Node_stop_spin (nonzero [4096; 4112; 0]) /\
  (forall fuel,
     @spin_while positive Simulation.handing_out fuel outcome.2.1 outcome.2.2 =
       Some (Returns tt, (outcome.2.1, outcome.2.2))).
Proof.
  apply (@stop_reaches_every_added_node positive Simulation.handing_out
           [4096; 4112; 0] (Simulation.started 8192%positive)).
  vm_compute. reflexivity.
Defined.

(** A program that registers a second type, creates a node and a
    subscription, is interrupted and spins. *)
Lemma registry_only_grows_witness :
  let program :=
    [Process.Init {[ "Pong"%string := {| type_support := 8192 |} ]};
     Process.Init {[ "Ping"%string := {| type_support := 1 |} ]};
     Process.Create_node 0;
     Process.Create_subscription 8192 "Pong" "pong" 0 7;
     Process.Signal Process.SIGINT;
     Process.Spin_some 8192] in
  let w := Simulation.started 8192%positive in
  let w' := (@Process.execute_all positive Simulation.handing_out program w).2 in
  message_types w' = Process.registered (message_types w) program /\
  (forall name d, message_types w !! name = Some d -> message_types w' !! name = Some d).
Proof.
  apply (@registry_only_grows_by_init positive Simulation.handing_out).
  vm_compute. reflexivity.
Defined.

(** The same program: the flag is set at its end. *)
Lemma stop_flag_witness :
  let program :=
    [Process.Init {[ "Pong"%string := {| type_support := 8192 |} ]};
     Process.Create_node 0;
     Process.Signal Process.SIGINT;
     Process.Spin_some 8192] in
  let w := Simulation.started 8192%positive in
  let w' := (@Process.execute_all positive Simulation.handing_out program w).2 in
  global_stop_flag w' = global_stop_flag w || existsb Process.stops program.
Proof.
  apply (@stop_flag_set_only_by_signals positive Simulation.handing_out).
  vm_compute. reflexivity.
Defined.
